(** * Relation building and foreign-key previews

    A shallow embedding of [db/queries/base.py] (the relation builder
    [DBQuery] with its join nesting) and of [mathesar/utils/preview.py]
    (the recursive foreign-key preview resolver), followed by the
    properties established about them. *)

From Stdlib Require Import ZArith List String Ascii Bool Arith Lia.
From Stdlib Require Import DecimalString.
From Stdlib Require DecimalPos DecimalZ.
Import ListNotations.

Open Scope string_scope.
Open Scope list_scope.

(** ** Python results

    A call either returns a value or raises.  Only the exception classes
    that the modelled code can raise are listed. *)

Inductive exn : Type :=
| AssertionError
| AttributeError
| TypeError
| ArgumentError
| IndexError
| KeyError
| ValueError
| RecursionError
| InvalidRequestError.

Inductive result (A : Type) : Type :=
| Ok (a : A)
| Raise (e : exn).

Arguments Ok {A} a.
Arguments Raise {A} e.

Definition is_ok {A} (r : result A) : bool :=
  match r with Ok _ => true | Raise _ => false end.

Definition rbind {A B} (r : result A) (k : A -> result B) : result B :=
  match r with
  | Ok a => k a
  | Raise e => Raise e
  end.

(** ** Python strings

    A [str] is modelled as a [string] whose characters are the code points
    below 256. *)

Module PyStr.

(** [str.isspace] on one character, for the code points below 256. *)
Definition isspace (c : ascii) : bool :=
  let n := nat_of_ascii c in
  (((9 <=? n) && (n <=? 13)) || ((28 <=? n) && (n <=? 32))
   || (n =? 133) || (n =? 160))%nat.

Fixpoint lstrip (s : string) : string :=
  match s with
  | EmptyString => EmptyString
  | String c rest => if isspace c then lstrip rest else s
  end.

(** [rstrip], written as a right-to-left pass: a character is dropped
    when it is white space and everything after it was dropped. *)
Fixpoint rstrip (s : string) : string :=
  match s with
  | EmptyString => EmptyString
  | String c rest =>
      match rstrip rest with
      | EmptyString => if isspace c then EmptyString else String c EmptyString
      | r => String c r
      end
  end.

Definition strip (s : string) : string := rstrip (lstrip s).

(** [sep.join(parts)] *)
Fixpoint join (sep : string) (parts : list string) : string :=
  match parts with
  | [] => ""
  | [p] => p
  | p :: rest => p ++ sep ++ join sep rest
  end.

(** [str(n)] for an [int]. *)
Definition of_int (z : Z) : string := NilZero.string_of_int (Z.to_int z).

(** [s.startswith(p)], returning the remainder after the prefix. *)
Fixpoint strip_prefix (p s : string) : option string :=
  match p, s with
  | EmptyString, _ => Some s
  | String a p', String b s' =>
      if Ascii.eqb a b then strip_prefix p' s' else None
  | String _ _, EmptyString => None
  end.

(** The scan of [str.replace] for a non-empty [old]: [skip] counts the
    characters of a matched occurrence that are still to be passed
    over. *)
Fixpoint replace_scan (old new : string) (skip : nat) (s : string) : string :=
  match s with
  | EmptyString => EmptyString
  | String c rest =>
      match skip with
      | S k => replace_scan old new k rest
      | O =>
          match strip_prefix old s with
          | Some _ => new ++ replace_scan old new (String.length old - 1) rest
          | None => String c (replace_scan old new 0 rest)
          end
      end
  end.

(** With an empty [old], [new] is inserted before every character and
    at the end. *)
Fixpoint intersperse (new s : string) : string :=
  match s with
  | EmptyString => new
  | String c rest => new ++ String c (intersperse new rest)
  end.

(** [s.replace(old, new)]: every non-overlapping occurrence, from the
    left. *)
Definition replace (s old new : string) : string :=
  match old with
  | EmptyString => intersperse new s
  | String _ _ => replace_scan old new 0 s
  end.

Definition newline : ascii := ascii_of_nat 10.

(** [re.findall(r'\{(.*?)\}', s)].  The pattern matches an opening brace,
    the shortest run of characters other than a newline, and a closing
    brace; the matches are searched from the left and do not overlap.
    [grp] is [None] while no opening brace is pending, and otherwise the
    characters seen since the pending brace, latest first.  A newline or
    the end of the text makes the pending attempt fail, and with it every
    attempt that starts after the pending brace and before that point,
    as none of them met a closing brace either. *)
Fixpoint findall_scan (grp : option (list ascii)) (s : string) : list string :=
  match s with
  | EmptyString => []
  | String c rest =>
      match grp with
      | None =>
          if Ascii.eqb c "{" then findall_scan (Some []) rest
          else findall_scan None rest
      | Some acc =>
          if Ascii.eqb c "}" then
            string_of_list_ascii (rev acc) :: findall_scan None rest
          else if Ascii.eqb c newline then findall_scan None rest
          else findall_scan (Some (c :: acc)) rest
      end
  end.

Definition findall_braces (s : string) : list string := findall_scan None s.

End PyStr.

(** ** SQLAlchemy expressions used by [db/queries/base.py]

    Only the constructors the builder calls are modelled.  An anonymous
    alias or common table expression is a new object on every call; its
    identity is drawn from a counter that is threaded through the build. *)

Module SA.

Record Table : Type := mkTable {
  table_name : string;
  (** the names of the table's columns, i.e. the keys of [table.c] *)
  table_c : list string
}.

(** A column of a table: [column.name] and [column.table]. *)
Record Column : Type := mkColumn {
  name : string;
  table : Table
}.

(** [table.alias()]: an anonymous renamed copy of [element]. *)
Record Alias : Type := mkAlias {
  element : Table;
  alias_id : nat
}.

(** Column expressions: a column of a table, a column looked up by name
    on an alias, or the literal that a comparison makes of a right-hand
    side that is not an expression, a bound parameter holding the value.
    The only such value the builder can meet is an attribute that the
    column collection of an alias defines itself. *)
Inductive ColumnElement : Type :=
| OfTable (c : Column)
| OfAlias (a : Alias) (column_name : string)
| BindParameter (a : Alias) (attribute : string).

(** What the builder holds where it expects a column expression:
    [getattr] on a column collection returns a column of the collection,
    or an attribute of the collection itself, such as its method
    [keys]. *)
Inductive pyvalue : Type :=
| Expression (e : ColumnElement)
| CollectionAttribute (a : Alias) (attribute : string).

(** A comparison between two column expressions. *)
Record BinaryExpression : Type := mkEq {
  eq_left : ColumnElement;
  eq_right : ColumnElement
}.

(** [left == right] on a column [left]: a right-hand side that is not an
    expression is wrapped in a bound parameter. *)
Definition eq (left : ColumnElement) (right : pyvalue) : BinaryExpression :=
  match right with
  | Expression e => mkEq left e
  | CollectionAttribute a attribute => mkEq left (BindParameter a attribute)
  end.

(** A labelled column expression. *)
Record Label : Type := mkLabel {
  label_element : ColumnElement;
  label_name : string
}.

Inductive FromClause : Type :=
| FromTable (t : Table)
| FromAlias (a : Alias)
| Join (left right : FromClause) (onclause : BinaryExpression).

(** [select( *columns ).select_from(target)]: the select list and the
    argument of [select_from].  The FROM list of the compiled statement,
    which also names the tables and aliases of the selected columns that
    the target does not contain, is not modelled. *)
Record Select : Type := mkSelect {
  columns_clause : list Label;
  from_obj : FromClause
}.

(** [stmt.cte()]: an anonymous common table expression. *)
Record CTE : Type := mkCTE {
  cte_element : Select;
  cte_id : nat
}.

(** Whether a name occurs twice in a list. *)
Fixpoint repeats (names : list string) : bool :=
  match names with
  | [] => false
  | x :: rest => existsb (String.eqb x) rest || repeats rest
  end.

(** [relation.columns]: one column per entry of the select list, keyed
    by its label.  The collection is built on access, and building it
    raises when two labels of the select list have the same name. *)
Definition columns (r : CTE) : result (list Label) :=
  let labels := columns_clause (cte_element r) in
  if repeats (List.map label_name labels) then Raise InvalidRequestError
  else Ok labels.

(** Computations that create anonymous objects: the counter of the next
    fresh identity goes in and, unless the call raises, comes out. *)
Definition M (A : Type) : Type := nat -> result (A * nat).

Definition ret {A} (a : A) : M A := fun n => Ok (a, n).

Definition raise {A} (e : exn) : M A := fun _ => Raise e.

Definition bind {A B} (m : M A) (k : A -> M B) : M B :=
  fun n =>
    match m n with
    | Ok (a, n') => k a n'
    | Raise e => Raise e
    end.

(** A call that creates no object. *)
Definition lift {A} (r : result A) : M A :=
  fun n =>
    match r with
    | Ok a => Ok (a, n)
    | Raise e => Raise e
    end.

Definition alias (t : Table) : M Alias :=
  fun n => Ok (mkAlias t n, S n).

Definition cte (stmt : Select) : M CTE :=
  fun n => Ok (mkCTE stmt n, S n).

(** [col.label(name)]: a method of column expressions; the attributes of
    a column collection do not have it. *)
Definition label (col : pyvalue) (name : string) : M Label :=
  match col with
  | Expression e => ret (mkLabel e name)
  | CollectionAttribute _ _ => raise AttributeError
  end.

(** [join(left, right, onclause)]; the builder's accumulated join may
    still be [None] where it is used as the right-hand side. *)
Definition join (left : FromClause) (right : option FromClause)
    (onclause : BinaryExpression) : M FromClause :=
  match right with
  | Some r => ret (Join left r onclause)
  | None => raise ArgumentError
  end.

Section ColumnCollection.

(** The names that the class of a column collection defines itself (its
    methods, such as [keys], [values] and [items]).  Attribute lookup
    finds them before it looks for a column of that name. *)
Variable collection_attribute : string -> bool.

(** [getattr(aliased.c, column_name)] *)
Definition alias_c (a : Alias) (column_name : string) : M pyvalue :=
  if collection_attribute column_name then
    ret (CollectionAttribute a column_name)
  else if existsb (String.eqb column_name) (table_c (element a)) then
    ret (Expression (OfAlias a column_name))
  else raise AttributeError.

End ColumnCollection.

End SA.

Declare Scope sa_scope.
Delimit Scope sa_scope with sa.
Notation "x <- m ;; k" := (SA.bind m (fun x => k))
  (at level 61, m at next level, right associativity) : sa_scope.
Notation "' p <- m ;; k" := (SA.bind m (fun p => k))
  (at level 61, p pattern, m at next level, right associativity) : sa_scope.

(** ** [db/queries/base.py] *)

Module base.

Import SA.
Local Open Scope sa_scope.

(** [class JoinParams(namedtuple('JoinParams', ['left_column', 'right_column']))] *)
Record JoinParams : Type := mkJoinParams {
  left_column : Column;
  right_column : Column
}.

Definition flip (self : JoinParams) : JoinParams :=
  {| left_column := right_column self;
     right_column := left_column self |}.

Definition left_table (self : JoinParams) : Table := table (left_column self).

Definition right_table (self : JoinParams) : Table := table (right_column self).

(** [class InitialColumn]; [jp_path] is [None] for a base column. *)
Record InitialColumn : Type := mkInitialColumn {
  alias : string;
  column : Column;
  jp_path : option (list JoinParams)
}.

Definition is_base_column (self : InitialColumn) : bool :=
  match jp_path self with
  | None => true
  | Some _ => false
  end.

(** The values a caller may pass where the constructors check types with
    [isinstance]. *)
Inductive pyobj : Type :=
| PyNone
| PyString (s : string)
| PyInt (z : Z)
| PySATable (t : Table)
| PySAColumn (c : Column)
| PyJoinParams (jp : JoinParams)
| PyInitialColumn (ic : InitialColumn).

(** The loop [for jp in jp_path: assert isinstance(jp, JoinParams)]. *)
Fixpoint check_jp_path (path : list pyobj) : result (list JoinParams) :=
  match path with
  | [] => Ok []
  | PyJoinParams jp :: rest => rbind (check_jp_path rest) (fun jps => Ok (jp :: jps))
  | _ :: _ => Raise AssertionError
  end.

(** [InitialColumn.__init__(alias, column, jp_path=None)] *)
Definition InitialColumn_init (alias : pyobj) (column : pyobj)
    (jp_path : option (list pyobj)) : result InitialColumn :=
  match alias with
  | PyString a =>
      if String.eqb (PyStr.strip a) "" then Raise AssertionError
      else
        rbind (match jp_path with
               | Some path => rbind (check_jp_path path) (fun jps => Ok (Some jps))
               | None => Ok None
               end)
          (fun jps =>
             match column with
             | PySAColumn c => Ok (mkInitialColumn a c jps)
             | _ => Raise AssertionError
             end)
  | _ => Raise AssertionError
  end.

(** A relation is the derived-table expression the builder returns; a
    transformation maps a relation to a relation. *)
Definition Relation : Type := CTE.
Definition Transformation : Type := Relation -> Relation.

(** [class DBQuery] *)
Record DBQuery : Type := mkDBQuery {
  base_table : Table;
  initial_columns : list InitialColumn;
  transformations : option (list Transformation);
  query_name : option string
}.

Fixpoint check_initial_columns (cols : list pyobj) : result (list InitialColumn) :=
  match cols with
  | [] => Ok []
  | PyInitialColumn ic :: rest =>
      rbind (check_initial_columns rest) (fun ics => Ok (ic :: ics))
  | _ :: _ => Raise AssertionError
  end.

(** [DBQuery.__init__(base_table, initial_columns, transformations=None, name=None)] *)
Definition DBQuery_init (base_table : pyobj) (initial_columns : list pyobj)
    (transformations : option (list Transformation)) (name : option string)
  : result DBQuery :=
  match base_table with
  | PySATable t =>
      rbind (check_initial_columns initial_columns)
        (fun ics => Ok (mkDBQuery t ics transformations name))
  | _ => Raise AssertionError
  end.

Definition _apply_transformations (initial_relation : Relation)
    (transformations : option (list Transformation)) : Relation :=
  initial_relation.

Section Builder.

(** The names that SQLAlchemy's column collections define themselves. *)
Variable collection_attribute : string -> bool.

(** [_access_column_on_aliased_relation]; the alias is still [None] when
    the join path had no hop. *)
Definition _access_column_on_aliased_relation (aliased_relation : option Alias)
    (sa_column : Column) : M pyvalue :=
  let column_name := name sa_column in
  match aliased_relation with
  | Some a => alias_c collection_attribute a column_name
  | None => raise AttributeError
  end.

(** The body of the loop of [_nest_a_join], run over
    [enumerate(reversed(jp_path))] from index [i]. *)
Fixpoint nest_loop (i : nat) (jps : list JoinParams)
    (nested_join : option FromClause) (rightmost_table_alias : option Alias)
  : M (option FromClause * option Alias) :=
  match jps with
  | [] => ret (nested_join, rightmost_table_alias)
  | jp :: rest =>
      let is_last_jp := Nat.eqb i 0 in
      '(rightmost_table_alias, right_table, right_column_reference) <-
        (if is_last_jp then
           a <- SA.alias (right_table jp) ;;
           r <- _access_column_on_aliased_relation (Some a) (right_column jp) ;;
           ret (Some a, Some (FromAlias a), r)
         else
           ret (rightmost_table_alias, nested_join,
                Expression (OfTable (right_column jp)))) ;;
      let left_column_reference := OfTable (left_column jp) in
      nested_join <- join (FromTable (left_table jp)) right_table
                       (SA.eq left_column_reference right_column_reference) ;;
      nest_loop (S i) rest (Some nested_join) rightmost_table_alias
  end.

Definition _nest_a_join (nested_join : option FromClause)
    (initial_column : InitialColumn) : M (option FromClause * pyvalue) :=
  match jp_path initial_column with
  | None => raise TypeError
  | Some jp_path =>
      let target_sa_column := column initial_column in
      '(nested_join, rightmost_table_alias) <-
        nest_loop 0 (rev jp_path) nested_join None ;;
      rightmost_table_target_column_reference <-
        _access_column_on_aliased_relation rightmost_table_alias target_sa_column ;;
      ret (nested_join, rightmost_table_target_column_reference)
  end.

Definition _process_initial_column (initial_column : InitialColumn)
    (nested_join : option FromClause) : M (option FromClause * Label) :=
  '(nested_join, col_to_select) <-
    (if is_base_column initial_column then
       ret (nested_join, Expression (OfTable (column initial_column)))
     else
       _nest_a_join nested_join initial_column) ;;
  aliased_col_to_select <- label col_to_select (alias initial_column) ;;
  ret (nested_join, aliased_col_to_select).

(** The loop of [_get_initial_relation] over [query.initial_columns]. *)
Fixpoint initial_columns_loop (cols : list InitialColumn)
    (nested_join : option FromClause) (sa_columns_to_select : list Label)
  : M (option FromClause * list Label) :=
  match cols with
  | [] => ret (nested_join, sa_columns_to_select)
  | initial_column :: rest =>
      '(nested_join, sa_column_to_select) <-
        _process_initial_column initial_column nested_join ;;
      initial_columns_loop rest nested_join
        (sa_columns_to_select ++ [sa_column_to_select])
  end.

Definition _get_initial_relation (query : DBQuery) : M Relation :=
  '(nested_join, sa_columns_to_select) <-
    initial_columns_loop (initial_columns query) None [] ;;
  let select_target :=
    match nested_join with
    | Some j => j
    | None => FromTable (base_table query)
    end in
  let stmt := mkSelect sa_columns_to_select select_target in
  cte stmt.

(** [DBQuery.sa_relation] *)
Definition sa_relation (self : DBQuery) : M Relation :=
  initial_relation <- _get_initial_relation self ;;
  let transformed := _apply_transformations initial_relation (transformations self) in
  ret transformed.

(** [DBQuery.sa_output_columns], over the enriching constructor
    [MathesarColumn.from_column]. *)
Definition sa_output_columns {MathesarColumn : Type}
    (from_column : Label -> MathesarColumn) (self : DBQuery)
  : M (list MathesarColumn) :=
  r <- sa_relation self ;;
  regular_sa_columns <- lift (columns r) ;;
  ret (List.map from_column regular_sa_columns).

End Builder.

End base.

(** ** [mathesar/utils/preview.py] *)

Module preview.

(** *** The metadata the resolver reads

    The Django models [Column] and [Constraint] and the enumeration
    [ConstraintType] are declared outside these sources; the attributes
    read by the resolver are kept as record fields. *)

(** A table: [table.id] and [table.settings.preview_settings.template]. *)
Record Table : Type := mkTable {
  table_id : Z;
  template : string
}.

(** A column: [column.id] (the integer primary key), [column.table] and
    the dictionary [column.display_options]. *)
Record Column : Type := mkColumn {
  id : Z;
  table : Table;
  display_options : list (string * bool)
}.

(** Two model instances are equal when their primary keys are. *)
Definition Column_eqb (a b : Column) : bool := Z.eqb (id a) (id b).

(** A constraint: [constraint.type], [constraint.columns] and
    [constraint.referent_columns]. *)
Record Constraint : Type := mkConstraint {
  type : string;
  columns : list Column;
  referent_columns : list Column
}.

(** The queries sent to the metadata store. *)
Record ORM : Type := mkORM {
  (** [ConstraintType.FOREIGN_KEY.value] *)
  FOREIGN_KEY_value : string;
  (** [Constraint.objects.filter(table_id=pk)] *)
  Constraint_objects_filter : Z -> list Constraint;
  (** [Column.objects.filter(id__in=ids)], which may fail *)
  Column_objects_filter : list string -> result (list Column)
}.

(** *** Python values of the resolver *)

(** A hop of a preview path: the list [[constrained_id, referent_id]]. *)
Definition Hop : Type := (Z * Z)%type.
Definition Path : Type := list Hop.

(** The dictionary [{'id': ..., 'alias': ..., 'jp_path': ...}]; the id
    is the text captured from the template. *)
Record InitialColumnDict : Type := mkInitialColumnDict {
  ic_id : string;
  ic_alias : string;
  ic_jp_path : Path
}.

(** The dictionary [{'template': ..., 'path': ...}]. *)
Record PreviewEntry : Type := mkPreviewEntry {
  entry_template : string;
  entry_path : Path
}.

(** Dictionary keys: the integer ids used to store entries, and the
    strings captured from a template that are looked up. *)
Inductive pykey : Type :=
| KInt (z : Z)
| KStr (s : string).

Definition pykey_eqb (a b : pykey) : bool :=
  match a, b with
  | KInt x, KInt y => Z.eqb x y
  | KStr x, KStr y => String.eqb x y
  | _, _ => false
  end.

(** [f'{key}'] *)
Definition format_key (k : pykey) : string :=
  match k with
  | KInt z => PyStr.of_int z
  | KStr s => s
  end.

(** A [dict] keeps its keys in insertion order; assigning to a key that
    is present replaces the value in place. *)
Definition PreviewInfo : Type := list (pykey * PreviewEntry).

Fixpoint dict_set (d : PreviewInfo) (k : pykey) (v : PreviewEntry) : PreviewInfo :=
  match d with
  | [] => [(k, v)]
  | (k', v') :: rest =>
      if pykey_eqb k' k then (k', v) :: rest else (k', v') :: dict_set rest k v
  end.

Definition dict_contains (d : PreviewInfo) (k : pykey) : bool :=
  existsb (fun kv => pykey_eqb (fst kv) k) d.

Fixpoint dict_get (d : PreviewInfo) (k : pykey) : option PreviewEntry :=
  match d with
  | [] => None
  | (k', v) :: rest => if pykey_eqb k' k then Some v else dict_get rest k
  end.

Definition dict_keys (d : PreviewInfo) : list pykey := List.map fst d.

(** [d[key]] on [display_options]. *)
Fixpoint getitem (d : list (string * bool)) (key : string) : result bool :=
  match d with
  | [] => Raise KeyError
  | (k, v) :: rest => if String.eqb k key then Ok v else getitem rest key
  end.

(** [xs[0]] *)
Definition first {A} (xs : list A) : result A :=
  match xs with
  | x :: _ => Ok x
  | [] => Raise IndexError
  end.

(** A list behind a chain of [filter(f, ...)] calls.  Nothing is
    evaluated until the loop asks for the next element: the predicates
    then run on it in the order the filters were stacked, and a
    predicate that raises makes the loop raise at that element. *)
Record Filtered : Type := mkFiltered {
  source : list Constraint;
  predicates : list (Constraint -> result bool)
}.

Definition of_list (l : list Constraint) : Filtered := mkFiltered l [].

Definition filter (f : Constraint -> result bool) (it : Filtered) : Filtered :=
  mkFiltered (source it) (predicates it ++ [f]).

Fixpoint passes (preds : list (Constraint -> result bool)) (c : Constraint)
  : result bool :=
  match preds with
  | [] => Ok true
  | p :: rest => rbind (p c) (fun b => if b then passes rest c else Ok false)
  end.

Definition _filter_preview_enabled_columns (fk_constraint : Constraint)
  : result bool :=
  rbind (first (columns fk_constraint)) (fun constrained_column =>
  getitem (display_options constrained_column) "show_fk_preview").

Definition _get_filter_restricted_columns_fn (restricted_columns : list Column)
  : Constraint -> result bool :=
  fun fk_constraint =>
    rbind (first (columns fk_constraint)) (fun constrained_column =>
    Ok (existsb (Column_eqb constrained_column) restricted_columns)).

(** [f"{path[0]}__{path[1]}"] *)
Definition format_hop (hop : Hop) : string :=
  PyStr.of_int (fst hop) ++ "__" ++ PyStr.of_int (snd hop).

Definition path_prefix_of (current_path : Path) : string :=
  PyStr.join "___" (List.map format_hop current_path).

(** [f'{{{x}}}'] *)
Definition braces (x : string) : string := "{" ++ x ++ "}".

Section Resolver.

Variable orm : ORM.

(** The recursive call [get_preview_info(fk_previews, table_id,
    restrict_columns, path, existing_columns)]. *)
Variable get_preview_info_rec :
  string -> Z -> option (list Column) -> Path -> list InitialColumnDict ->
  result (PreviewInfo * list InitialColumnDict).

(** The loop over [referent_preview_info.items()], lines 34-35. *)
Definition substitute_nested (referent_preview_info : PreviewInfo)
    (preview_template : string) : string :=
  fold_left
    (fun t kv =>
       PyStr.replace t (braces (format_key (fst kv))) (entry_template (snd kv)))
    referent_preview_info preview_template.

(** One turn of the loop over [preview_data_column_ids], lines 38-42. *)
Definition leaf_step (referent_preview_info : PreviewInfo) (path_prefix : string)
    (current_path : Path) (st : string * list InitialColumnDict)
    (preview_data_column_id : string) : string * list InitialColumnDict :=
  let '(preview_template, preview_columns) := st in
  if negb (dict_contains referent_preview_info (KStr preview_data_column_id)) then
    let column_alias_name :=
      (path_prefix ++ "__col__" ++ preview_data_column_id)%string in
    let preview_template :=
      PyStr.replace preview_template (braces preview_data_column_id)
        (braces column_alias_name) in
    let initial_column :=
      mkInitialColumnDict preview_data_column_id column_alias_name current_path in
    (preview_template, preview_columns ++ [initial_column])
  else st.

(** The body of the loop over [fk_constraints], lines 22-43. *)
Definition constraint_step (fk_previews : string) (previous_path : Path)
    (exising_columns : list InitialColumnDict)
    (st : PreviewInfo * list InitialColumnDict) (fk_constraint : Constraint)
  : result (PreviewInfo * list InitialColumnDict) :=
  let '(preview_info, preview_columns) := st in
  rbind (first (columns fk_constraint)) (fun constrained_column =>
  rbind (first (referent_columns fk_constraint)) (fun referent_column =>
  let referent_table := table referent_column in
  let preview_template := template referent_table in
  let preview_data_column_ids := PyStr.findall_braces preview_template in
  rbind (Column_objects_filter orm preview_data_column_ids)
    (fun preview_data_columns =>
  let current_path := previous_path ++ [(id constrained_column, id referent_column)] in
  rbind (get_preview_info_rec fk_previews (table_id referent_table)
           (Some preview_data_columns) current_path exising_columns)
    (fun '(referent_preview_info, referent_preview_columns) =>
  let preview_columns := preview_columns ++ referent_preview_columns in
  let preview_template := substitute_nested referent_preview_info preview_template in
  let path_prefix := path_prefix_of current_path in
  let '(preview_template, preview_columns) :=
    fold_left (leaf_step referent_preview_info path_prefix current_path)
      preview_data_column_ids (preview_template, preview_columns) in
  Ok (dict_set preview_info (KInt (id constrained_column))
        (mkPreviewEntry preview_template current_path),
      preview_columns))))).

(** The loop over the lazily filtered [fk_constraints]. *)
Fixpoint constraints_loop (fk_previews : string)
    (preds : list (Constraint -> result bool)) (previous_path : Path)
    (exising_columns : list InitialColumnDict) (cs : list Constraint)
    (st : PreviewInfo * list InitialColumnDict)
  : result (PreviewInfo * list InitialColumnDict) :=
  match cs with
  | [] => Ok st
  | fk_constraint :: rest =>
      rbind (passes preds fk_constraint) (fun keep =>
      if keep then
        rbind (constraint_step fk_previews previous_path exising_columns st
                 fk_constraint)
          (constraints_loop fk_previews preds previous_path exising_columns rest)
      else
        constraints_loop fk_previews preds previous_path exising_columns rest st)
  end.

Definition get_constrained_columns_by_referent_table (fk_previews : string)
    (fk_constraints : Filtered) (previous_path : Path)
    (exising_columns : list InitialColumnDict)
  : result (PreviewInfo * list InitialColumnDict) :=
  let preview_info : PreviewInfo := [] in
  let preview_columns := exising_columns in
  constraints_loop fk_previews (predicates fk_constraints) previous_path
    exising_columns (source fk_constraints) (preview_info, preview_columns).

(** The foreign-key constraints of a table and the filters stacked on
    them, lines 48-63. *)
Definition select_fk_constraints (fk_previews : string) (referrer_table_pk : Z)
    (restrict_columns : option (list Column)) : Filtered :=
  let table_constraints := Constraint_objects_filter orm referrer_table_pk in
  let fk_constraints :=
    of_list
      (List.filter
         (fun table_constraint =>
            String.eqb (type table_constraint) (FOREIGN_KEY_value orm))
         table_constraints) in
  let fk_constraints :=
    if String.eqb fk_previews "auto"
    then filter _filter_preview_enabled_columns fk_constraints
    else fk_constraints in
  match restrict_columns with
  | Some (c :: cs) =>
      filter (_get_filter_restricted_columns_fn (c :: cs)) fk_constraints
  | _ => fk_constraints
  end.

Definition get_preview_info_body (fk_previews : string) (referrer_table_pk : Z)
    (restrict_columns : option (list Column)) (path : Path)
    (existing_columns : list InitialColumnDict)
  : result (PreviewInfo * list InitialColumnDict) :=
  get_constrained_columns_by_referent_table fk_previews
    (select_fk_constraints fk_previews referrer_table_pk restrict_columns)
    path existing_columns.

End Resolver.

(** [get_preview_info].  The two functions call each other; [depth] is
    the number of nested calls still allowed before the interpreter
    raises [RecursionError]. *)
Fixpoint get_preview_info (orm : ORM) (depth : nat) (fk_previews : string)
    (referrer_table_pk : Z) (restrict_columns : option (list Column))
    (path : Path) (existing_columns : list InitialColumnDict)
  : result (PreviewInfo * list InitialColumnDict) :=
  match depth with
  | O => Raise RecursionError
  | S depth' =>
      get_preview_info_body orm (get_preview_info orm depth')
        fk_previews referrer_table_pk restrict_columns path existing_columns
  end.

End preview.

(** ** [add_preview_columns] *)

Module preview_columns.

Import preview.

(** A referent table setting: [setting.preview_settings.template],
    [setting.table_id] and [setting.table]. *)
Record TableSettings : Type := mkTableSettings {
  settings_template : string;
  settings_table_id : Z;
  settings_table : Table
}.

(** The values held by the inner dictionaries. *)
Inductive pyval : Type :=
| VColumns (cols : list Column)
| VTable (t : Table)
| VString (s : string)
| VPath (p : Path).

(** An inner dictionary, keyed by text, and the dictionary of those,
    keyed by table id; both in insertion order. *)
Definition Entry : Type := list (string * pyval).
Definition Info : Type := list (Z * Entry).

(** [entry[key] = v] *)
Fixpoint entry_set (e : Entry) (key : string) (v : pyval) : Entry :=
  match e with
  | [] => [(key, v)]
  | (k, v') :: rest =>
      if String.eqb k key then (k, v) :: rest else (k, v') :: entry_set rest key v
  end.

Fixpoint entry_get (e : Entry) (key : string) : option pyval :=
  match e with
  | [] => None
  | (k, v) :: rest => if String.eqb k key then Some v else entry_get rest key
  end.

(** [info[table_id]], which raises [KeyError] for a missing key. *)
Fixpoint info_get (info : Info) (table_id : Z) : result Entry :=
  match info with
  | [] => Raise KeyError
  | (k, e) :: rest => if Z.eqb k table_id then Ok e else info_get rest table_id
  end.

(** [info[table_id][key] = v]: the inner dictionary is looked up, which
    may raise, and then updated in place. *)
Fixpoint info_set_item (info : Info) (table_id : Z) (key : string) (v : pyval)
  : result Info :=
  match info with
  | [] => Raise KeyError
  | (k, e) :: rest =>
      if Z.eqb k table_id then Ok ((k, entry_set e key v) :: rest)
      else rbind (info_set_item rest table_id key v)
             (fun rest' => Ok ((k, e) :: rest'))
  end.

(** The body of the loop of [add_preview_columns], lines 9-14.  The
    dictionary is mutated in place: the state of the dictionary after the
    turn is returned together with the outcome of the turn, so that what
    was written before an exception is kept. *)
Definition add_step (orm : ORM) (preview_info : Info)
    (referent_table_setting : TableSettings) : Info * result unit :=
  let preview_template := settings_template referent_table_setting in
  let preview_data_column_ids := PyStr.findall_braces preview_template in
  match Column_objects_filter orm preview_data_column_ids with
  | Raise e => (preview_info, Raise e)
  | Ok preview_data_columns =>
      match info_set_item preview_info (settings_table_id referent_table_setting)
              "preview_columns" (VColumns preview_data_columns) with
      | Raise e => (preview_info, Raise e)
      | Ok preview_info1 =>
          match info_set_item preview_info1
                  (settings_table_id referent_table_setting)
                  "table" (VTable (settings_table referent_table_setting)) with
          | Raise e => (preview_info1, Raise e)
          | Ok preview_info2 => (preview_info2, Ok tt)
          end
      end
  end.

(** [add_preview_columns(preview_info, referent_table_settings)]: the
    final state of the dictionary passed in and, when no turn raised, the
    returned value, which is that same dictionary. *)
Fixpoint add_preview_columns (orm : ORM) (preview_info : Info)
    (referent_table_settings : list TableSettings) : Info * result Info :=
  match referent_table_settings with
  | [] => (preview_info, Ok preview_info)
  | referent_table_setting :: rest =>
      match add_step orm preview_info referent_table_setting with
      | (preview_info', Ok _) => add_preview_columns orm preview_info' rest
      | (preview_info', Raise e) => (preview_info', Raise e)
      end
  end.

End preview_columns.

(** * Vocabulary of the statements

    Definitions used to state the properties below: they describe results
    of the code above and do not take part in it. *)

Module base_spec.

Import SA base.

(** The join wrapped around [j] by a hop that is not the last one. *)
Definition outer_join (j : FromClause) (jp : JoinParams) : FromClause :=
  Join (FromTable (left_table jp)) j
    {| eq_left := OfTable (left_column jp);
       eq_right := OfTable (right_column jp) |}.

Definition has_column (t : Table) (c : Column) : bool :=
  existsb (String.eqb (name c)) (table_c t).

(** The right-hand side of the last hop's condition: the hop's right
    column on the alias [a], unless its name is one that the column
    collection defines itself; the condition then compares with a bound
    parameter. *)
Definition right_reference (attr : string -> bool) (a : Alias)
    (jp : JoinParams) : ColumnElement :=
  if attr (name (right_column jp)) then BindParameter a (name (right_column jp))
  else OfAlias a (name (right_column jp)).

(** The join built for the last hop against the alias [a]. *)
Definition inner_join (attr : string -> bool) (a : Alias) (jp : JoinParams)
  : FromClause :=
  Join (FromTable (left_table jp)) (FromAlias a)
    {| eq_left := OfTable (left_column jp);
       eq_right := right_reference attr a jp |}.

(** The joins nested for a path whose hops are, last first, [jp :: rest]. *)
Definition path_join (attr : string -> bool) (a : Alias) (jp : JoinParams)
    (rest : list JoinParams) : FromClause :=
  fold_left outer_join rest (inner_join attr a jp).

(** The table a join path ends in. *)
Definition rightmost_table (p : list JoinParams) : option Table :=
  option_map right_table (hd_error (rev p)).

(** A column is resolvable when it is a base column, or when its path has
    a last hop such that: the name of the hop's right column is a column
    of the hop's right table or a name the column collection defines; and
    the name of the target column is a column of that table and not a
    name the collection defines. *)
Definition resolvable (attr : string -> bool) (ic : InitialColumn) : bool :=
  match jp_path ic with
  | None => true
  | Some p =>
      match rev p with
      | [] => false
      | jp :: _ =>
          (attr (name (right_column jp))
           || has_column (right_table jp) (right_column jp))
          && negb (attr (name (column ic)))
          && has_column (right_table jp) (column ic)
      end
  end.

(** The number of initial columns that are reached through a join. *)
Definition count_joins (cols : list InitialColumn) : nat :=
  List.length (List.filter (fun ic => negb (is_base_column ic)) cols).

(** What the select list holds for the initial column [ic] when [n] is
    the next fresh identity at its turn: the alias of [ic] as the label
    name, over the column itself for a base column, and over the column
    of that name on the alias numbered [n] of the rightmost table of the
    path otherwise. *)
Definition selects_for (n : nat) (ic : InitialColumn) (l : Label) : Prop :=
  label_name l = alias ic /\
  match jp_path ic with
  | None => label_element l = OfTable (column ic)
  | Some p =>
      exists t,
        rightmost_table p = Some t
        /\ label_element l = OfAlias (mkAlias t n) (name (column ic))
  end.

(** The select list of a build that starts with [n] as the next fresh
    identity: entry [k] is the one of the [k]-th initial column, at the
    identity left by the join columns before it. *)
Definition selects_all (n : nat) (cols : list InitialColumn)
    (ls : list Label) : Prop :=
  List.length ls = List.length cols
  /\ forall k ic l,
       nth_error cols k = Some ic ->
       nth_error ls k = Some l ->
       selects_for (n + count_joins (firstn k cols)) ic l.

(** The label of a base column, field by field. *)
Definition base_label (ic : InitialColumn) : Label :=
  {| label_element := OfTable (column ic); label_name := alias ic |}.

(** Sequential application of a transformation list, as the
    specification words it: in list order, each transformation taking
    the previous result. *)
Definition apply_in_order (ts : list Transformation) (r : Relation) : Relation :=
  fold_left (fun acc t => t acc) ts r.





(** The query with its transformations replaced. *)
Definition with_transformations (q : DBQuery)
    (ts : option (list Transformation)) : DBQuery :=
  mkDBQuery (base_table q) (initial_columns q) ts (query_name q).


End base_spec.

(** ** Sample schema and queries *)

Module base_examples.

Import SA base.

(** Methods of SQLAlchemy's column collection, for the examples that
    need a concrete collection. *)
Definition collection_methods (attribute : string) : bool :=
  existsb (String.eqb attribute)
    ["keys"; "values"; "items"; "get"; "contains_column"; "as_immutable"].

Definition orders : Table := mkTable "orders" ["id"; "customer_id"].
Definition customers : Table := mkTable "customers" ["id"; "name"].
Definition products : Table := mkTable "products" ["id"; "supplier_id"].
Definition suppliers : Table := mkTable "suppliers" ["id"; "name"].

(** A table with columns named as methods of the column collection. *)
Definition vaults : Table := mkTable "vaults" ["keys"; "items"; "owner"].

Definition orders_id : Column := mkColumn "id" orders.
Definition orders_customer_id : Column := mkColumn "customer_id" orders.
Definition customers_id : Column := mkColumn "id" customers.
Definition customers_name : Column := mkColumn "name" customers.
Definition products_supplier_id : Column := mkColumn "supplier_id" products.
Definition suppliers_id : Column := mkColumn "id" suppliers.
Definition vaults_keys : Column := mkColumn "keys" vaults.
Definition vaults_items : Column := mkColumn "items" vaults.
Definition vaults_owner : Column := mkColumn "owner" vaults.

Definition to_customers : JoinParams :=
  mkJoinParams orders_customer_id customers_id.
Definition to_suppliers : JoinParams :=
  mkJoinParams products_supplier_id suppliers_id.
Definition to_vaults : JoinParams :=
  mkJoinParams orders_id vaults_keys.

(** Two base columns of [orders]. *)
Definition base_query : DBQuery :=
  mkDBQuery orders
    [mkInitialColumn "order" orders_id None;
     mkInitialColumn "customer" orders_customer_id None]
    None None.

(** Two base columns of [orders] under the same alias. *)
Definition same_alias_query : DBQuery :=
  mkDBQuery orders
    [mkInitialColumn "order" orders_id None;
     mkInitialColumn "order" orders_customer_id None]
    None None.



(** A relation over [orders] with one output column. *)
Definition one_column : Relation :=
  mkCTE (mkSelect [mkLabel (OfTable orders_id) "order"] (FromTable orders)) 0.

(** A transformation that keeps no output column. *)
Definition drop_columns : Transformation :=
  fun r => mkCTE (mkSelect [] (from_obj (cte_element r))) (cte_id r).

End base_examples.

(** ** Characters of a text *)

Module PyStr_spec.

(** Every character of [s] satisfies [P]. *)
Fixpoint all_chars (P : ascii -> bool) (s : string) : bool :=
  match s with
  | EmptyString => true
  | String c rest => P c && all_chars P rest
  end.




End PyStr_spec.

(** ** Vocabulary of the preview resolver *)

Module preview_spec.

Import preview.

(** [b] begins with [a]. *)
Definition extends {A} (a b : list A) : Prop := exists ext, b = a ++ ext.

Definition int_key (k : pykey) : bool :=
  match k with
  | KInt _ => true
  | KStr _ => false
  end.

(** The placeholder ids of a template that the recursion did not
    resolve: those absent from the nested preview info. *)
Definition leaf_ids (referent_preview_info : PreviewInfo) (ids : list string)
  : list string :=
  List.filter (fun i => negb (dict_contains referent_preview_info (KStr i))) ids.

(** The alias of a leaf column: the path prefix, then [__col__] and the
    column id. *)
Definition leaf_alias (path_prefix : string) (column_id : string) : string :=
  (path_prefix ++ "__col__" ++ column_id)%string.

(** The descriptor of a leaf column reached through [current_path]. *)
Definition descriptor (current_path : Path) (column_id : string)
  : InitialColumnDict :=
  mkInitialColumnDict column_id
    (leaf_alias (PyStr.join "___" (List.map format_hop current_path)) column_id)
    current_path.

(** The template with the placeholder of a leaf column renamed to the
    column's alias. *)
Definition rewrite_leaf (path_prefix : string) (t : string) (column_id : string)
  : string :=
  PyStr.replace t (braces column_id) (braces (leaf_alias path_prefix column_id)).

Fixpoint path_eqb (p q : Path) : bool :=
  match p, q with
  | [], [] => true
  | (a, b) :: p', (c, d) :: q' => Z.eqb a c && Z.eqb b d && path_eqb p' q'
  | _, _ => false
  end.

(** The state after one turn of the loop over the constraints, from the
    values the turn reads: the constrained and the referent column and
    what the recursive call returned. *)
Definition step_result (previous_path : Path)
    (st : PreviewInfo * list InitialColumnDict) (cc rc : Column)
    (rinfo : PreviewInfo) (rcols : list InitialColumnDict)
  : PreviewInfo * list InitialColumnDict :=
  let cp := previous_path ++ [(id cc, id rc)] in
  let ids := PyStr.findall_braces (template (table rc)) in
  (dict_set (fst st) (KInt (id cc))
     (mkPreviewEntry
        (fold_left (rewrite_leaf (path_prefix_of cp)) (leaf_ids rinfo ids)
           (substitute_nested rinfo (template (table rc))))
        cp),
   snd st ++ rcols ++ List.map (descriptor cp) (leaf_ids rinfo ids)).

(** Two descriptors stand for the same column when they agree on the id
    and on the path. *)
Definition same_column (a b : InitialColumnDict) : bool :=
  String.eqb (ic_id a) (ic_id b) && path_eqb (ic_jp_path a) (ic_jp_path b).

(** How many entries of [l] stand for the column of [d]. *)
Definition occurrences (d : InitialColumnDict) (l : list InitialColumnDict) : nat :=
  List.length (List.filter (same_column d) l).

Definition is_foreign_key (orm : ORM) (c : Constraint) : bool :=
  String.eqb (type c) (FOREIGN_KEY_value orm).

(** The foreign-key constraints of a table. *)
Definition foreign_keys (orm : ORM) (table_pk : Z) : list Constraint :=
  List.filter (is_foreign_key orm) (Constraint_objects_filter orm table_pk).

(** The display flag of a column is set. *)
Definition shows_preview (c : Column) : Prop :=
  getitem (display_options c) "show_fk_preview" = Ok true.

(** The placeholder of a name in a template: the name between braces. *)
Definition placeholder (name : string) : string := String "{" (name ++ "}").

(** The text of a hop: the id of the constrained column, two
    underscores, the id of the referent column. *)
Definition hop_text (h : Hop) : string :=
  (PyStr.of_int (fst h) ++ "__" ++ PyStr.of_int (snd h))%string.

(** The texts of the hops of a path, in path order, separated by three
    underscores. *)
Fixpoint prefix_text (p : Path) : string :=
  match p with
  | [] => ""
  | h :: rest =>
      match rest with
      | [] => hop_text h
      | _ :: _ => (hop_text h ++ "___" ++ prefix_text rest)%string
      end
  end.

(** The alias of the column written [column_id] reached through [p]. *)
Definition alias_text (p : Path) (column_id : string) : string :=
  (prefix_text p ++ "__col__" ++ column_id)%string.

(** What one turn of the loop stores for the constrained column [cc]
    referring to [rc], from what the recursive call returned. *)
Definition step_entry (previous_path : Path) (cc rc : Column)
    (rinfo : PreviewInfo) : PreviewEntry :=
  let cp := previous_path ++ [(id cc, id rc)] in
  mkPreviewEntry
    (fold_left (rewrite_leaf (path_prefix_of cp))
       (leaf_ids rinfo (PyStr.findall_braces (template (table rc))))
       (substitute_nested rinfo (template (table rc))))
    cp.

(** The column written [i] is a leaf of the table [pk]: no foreign key
    of the table has a constrained column whose id is written [i]. *)
Definition leaf_of (orm : ORM) (pk : Z) (i : string) : Prop :=
  forall fk c,
    In fk (foreign_keys orm pk) ->
    first (columns fk) = Ok c ->
    PyStr.of_int (id c) <> i.

(** Every foreign key of the table [pk] whose constrained column has
    the id of [cc] refers to the column [rc]. *)
Definition refers_to (orm : ORM) (pk : Z) (cc rc : Column) : Prop :=
  forall fk c,
    In fk (foreign_keys orm pk) ->
    first (columns fk) = Ok c ->
    id c = id cc ->
    first (referent_columns fk) = Ok rc.

(** The display flag of the first constrained column of a constraint:
    the value of the first [show_fk_preview] entry of its display
    options, when there is such a column and such an entry. *)
Definition flag_of (c : Constraint) : option bool :=
  match columns c with
  | [] => None
  | cc :: _ =>
      option_map snd
        (List.find (fun kv => String.eqb (fst kv) "show_fk_preview")
           (display_options cc))
  end.



End preview_spec.

(** ** Sample metadata

    An orders table referring to customers, which refer to cities:
    the preview of a customer is the city column, and the preview of a
    city is its name. *)

Module preview_examples.

Import preview.

Definition flag (b : bool) : list (string * bool) := [("show_fk_preview", b)].

Definition orders : Table := mkTable 1 "{10}".
Definition customers : Table := mkTable 2 "{20}".
Definition cities : Table := mkTable 3 "{30}".

Definition orders_customer : Column := mkColumn 10 orders (flag true).
Definition orders_note : Column := mkColumn 11 orders (flag false).
Definition customers_id : Column := mkColumn 21 customers (flag false).
Definition customers_city : Column := mkColumn 20 customers (flag true).
Definition cities_id : Column := mkColumn 31 cities (flag false).
Definition cities_name : Column := mkColumn 30 cities (flag false).

Definition all_columns : list Column :=
  [orders_customer; orders_note; customers_id; customers_city;
   cities_id; cities_name].

Definition fk_orders_customer : Constraint :=
  mkConstraint "f" [orders_customer] [customers_id].
Definition fk_orders_note : Constraint :=
  mkConstraint "f" [orders_note] [cities_id].
Definition pk_orders : Constraint := mkConstraint "p" [orders_note] [].
Definition fk_customers_city : Constraint :=
  mkConstraint "f" [customers_city] [cities_id].

Definition constraints_of (table_pk : Z) : list Constraint :=
  if Z.eqb table_pk 1 then [fk_orders_customer; pk_orders; fk_orders_note]
  else if Z.eqb table_pk 2 then [fk_customers_city]
  else [].

(** Columns are found by the decimal text of their id. *)
Definition columns_with_ids (ids : list string) : result (list Column) :=
  Ok (List.filter
        (fun col => existsb (String.eqb (PyStr.of_int (id col))) ids)
        all_columns).

Definition store : ORM := mkORM "f" constraints_of columns_with_ids.



(** The descriptor of the city name reached from a customer. *)
Definition city_name_of_customer : InitialColumnDict :=
  mkInitialColumnDict "30" "20__31__col__30" [(20, 31)%Z].

End preview_examples.

(** ** Further vocabulary for the relation builder *)

Module base_more.

Import SA base base_spec.

(** The tables and aliases a from clause joins, from left to right. *)
Fixpoint join_leaves (f : FromClause) : list FromClause :=
  match f with
  | Join l r _ => join_leaves l ++ join_leaves r
  | leaf => [leaf]
  end.

(** The conditions of the joins of a from clause, from left to right. *)
Fixpoint onclauses (f : FromClause) : list BinaryExpression :=
  match f with
  | Join l r on => onclauses l ++ on :: onclauses r
  | _ => []
  end.

(** The condition of a hop between its two columns as they are. *)
Definition hop_condition (jp : JoinParams) : BinaryExpression :=
  {| eq_left := OfTable (left_column jp);
     eq_right := OfTable (right_column jp) |}.

(** The condition of the last hop, against the alias of its right table:
    the right column on the alias, or a bound parameter when the column's
    name is one that the column collection defines itself. *)
Definition last_hop_condition (attr : string -> bool) (a : Alias)
    (jp : JoinParams) : BinaryExpression :=
  {| eq_left := OfTable (left_column jp);
     eq_right :=
       if attr (name (right_column jp))
       then BindParameter a (name (right_column jp))
       else OfAlias a (name (right_column jp)) |}.

(** The arguments the constructor of [InitialColumn] accepts. *)
Definition acceptable_alias (alias : pyobj) : bool :=
  match alias with
  | PyString a => negb (String.eqb (PyStr.strip a) "")
  | _ => false
  end.

Definition is_join_params (o : pyobj) : bool :=
  match o with
  | PyJoinParams _ => true
  | _ => false
  end.

Definition is_sa_column (o : pyobj) : bool :=
  match o with
  | PySAColumn _ => true
  | _ => false
  end.

Definition is_sa_table (o : pyobj) : bool :=
  match o with
  | PySATable _ => true
  | _ => false
  end.

Definition is_initial_column (o : pyobj) : bool :=
  match o with
  | PyInitialColumn _ => true
  | _ => false
  end.

Definition acceptable_path (jp_path : option (list pyobj)) : bool :=
  match jp_path with
  | None => true
  | Some path => forallb is_join_params path
  end.

(** A column asked for through a path without any hop. *)
Definition hopless_query : DBQuery :=
  mkDBQuery base_examples.orders
    [mkInitialColumn "order" base_examples.orders_id None;
     mkInitialColumn "cust_name" base_examples.customers_name (Some [])]
    None None.

(** The customer's name, an order column, and the supplier's name of a
    product reached in two hops from a table other than the base. *)
Definition mixed_query : DBQuery :=
  mkDBQuery base_examples.orders
    [mkInitialColumn "cust_name" base_examples.customers_name
       (Some [base_examples.to_customers]);
     mkInitialColumn "supplier" (mkColumn "name" base_examples.suppliers)
       (Some [mkJoinParams base_examples.orders_id
                (mkColumn "id" base_examples.products);
              base_examples.to_suppliers]);
     mkInitialColumn "order" base_examples.orders_id None]
    None None.

(** The customer's name asked for twice under one alias. *)
Definition same_alias_join_query : DBQuery :=
  mkDBQuery base_examples.orders
    [mkInitialColumn "cust_name" base_examples.customers_name
       (Some [base_examples.to_customers]);
     mkInitialColumn "cust_name" base_examples.customers_name
       (Some [base_examples.to_customers])]
    None None.

(** The owner of a vault, reached through a hop whose right column is
    named as a method of the column collection. *)
Definition vault_owner : InitialColumn :=
  mkInitialColumn "owner" base_examples.vaults_owner
    (Some [base_examples.to_vaults]).

(** A target column named as a method of the column collection. *)
Definition vault_items_query : DBQuery :=
  mkDBQuery base_examples.orders
    [mkInitialColumn "items" base_examples.vaults_items
       (Some [base_examples.to_vaults])]
    None None.

End base_more.

(** ** Further vocabulary for the preview resolver *)

Module preview_more.

Import preview preview_spec.

(** The filters stacked on the foreign keys of a table. *)
Definition filters (orm : ORM) (fk_previews : string) (pk : Z)
    (restrict : option (list Column)) : list (Constraint -> result bool) :=
  predicates (select_fk_constraints orm fk_previews pk restrict).

(** A constraint survives when every filter returns true on it. *)
Definition survives (preds : list (Constraint -> result bool)) (fk : Constraint)
  : bool :=
  match passes preds fk with
  | Ok true => true
  | _ => false
  end.

(** The number of constraints of a list that survive. *)
Definition survivors (preds : list (Constraint -> result bool))
    (cs : list Constraint) : nat :=
  List.length (List.filter (survives preds) cs).

(** A descriptor made below [path]: its path goes on from [path] by at
    least one hop, and its alias is the one computed from its path and
    its id. *)
Definition made_below (path : Path) (d : InitialColumnDict) : Prop :=
  (exists hop more, ic_jp_path d = path ++ hop :: more)
  /\ ic_alias d = leaf_alias (path_prefix_of (ic_jp_path d)) (ic_id d).

(** A restriction lets the column [c] through: there is none, or it is
    empty, or [c] is one of its columns. *)
Definition lets_through (restrict : option (list Column)) (c : Column) : bool :=
  match restrict with
  | Some (x :: xs) => existsb (Column_eqb c) (x :: xs)
  | _ => true
  end.

(** A call in the mode [fk_previews] under the restriction [restrict]
    follows the foreign key: in ['auto'] mode its display flag is true,
    and the restriction lets its constrained column through. *)
Definition followed (fk_previews : string) (restrict : option (list Column))
    (fk : Constraint) : Prop :=
  (fk_previews = "auto" -> flag_of fk = Some true)
  /\ forall cc, first (columns fk) = Ok cc -> lets_through restrict cc = true.

(** Two constraints with the same first constrained column and the same
    first referent column. *)
Definition same_first_pair (a b : Constraint) : Prop :=
  first (columns a) = first (columns b)
  /\ first (referent_columns a) = first (referent_columns b).

(** Two stores that answer column lookups alike and whose foreign keys
    agree, table by table and in order, on their first column pair. *)
Definition same_first_pairs (orm orm' : ORM) : Prop :=
  (forall ids, Column_objects_filter orm ids = Column_objects_filter orm' ids)
  /\ forall pk,
      Forall2 same_first_pair (foreign_keys orm pk) (foreign_keys orm' pk).

(** Metadata on which the resolver can run: every foreign key has a
    constrained and a referent column, the constrained column carries the
    display flag, every column lookup answers, and every foreign key leads
    to a table of lower [rank]. *)
Definition well_founded_store (orm : ORM) (rank : Z -> nat) : Prop :=
  (forall ids, exists cols, Column_objects_filter orm ids = Ok cols)
  /\ forall pk fk,
      In fk (foreign_keys orm pk) ->
      exists cc rc flag,
        first (columns fk) = Ok cc
        /\ first (referent_columns fk) = Ok rc
        /\ getitem (display_options cc) "show_fk_preview" = Ok flag
        /\ rank (table_id (table rc)) < rank pk.

(** Employees with a manager, who is an employee: the preview of an
    employee is the manager column. *)
Definition employees : Table := mkTable 7 "{71}".
Definition employees_id : Column :=
  mkColumn 70 employees (preview_examples.flag false).
Definition employees_manager : Column :=
  mkColumn 71 employees (preview_examples.flag true).
Definition fk_manager : Constraint :=
  mkConstraint "f" [employees_manager] [employees_id].

Definition cyclic_store : ORM :=
  mkORM "f"
    (fun pk => if Z.eqb pk 7 then [fk_manager] else [])
    (fun ids =>
       Ok (List.filter
             (fun col => existsb (String.eqb (PyStr.of_int (id col))) ids)
             [employees_id; employees_manager])).

(** The ranks of the sample tables: orders above customers above cities. *)
Definition sample_rank (pk : Z) : nat :=
  if Z.eqb pk 1 then 2 else if Z.eqb pk 2 then 1 else 0.

(** A foreign key over two columns, and the same with only the first
    pair. *)
Definition fk_two_columns : Constraint :=
  mkConstraint "f"
    [preview_examples.customers_city; preview_examples.customers_id]
    [preview_examples.cities_id; preview_examples.cities_name].

Definition two_column_store : ORM :=
  mkORM "f"
    (fun pk => if Z.eqb pk 2 then [fk_two_columns] else [])
    preview_examples.columns_with_ids.

Definition single_column_store : ORM :=
  mkORM "f"
    (fun pk => if Z.eqb pk 2 then [preview_examples.fk_customers_city] else [])
    preview_examples.columns_with_ids.

(** A foreign key without columns. *)
Definition fk_no_columns : Constraint := mkConstraint "f" [] [].

Definition broken_store : ORM :=
  mkORM "f"
    (fun pk => if Z.eqb pk 2
               then [preview_examples.fk_customers_city; fk_no_columns]
               else [])
    preview_examples.columns_with_ids.

End preview_more.

(** ** Vocabulary for [add_preview_columns] *)

Module preview_columns_spec.

Import preview preview_columns.

(** The table ids the dictionary has an entry for. *)
Definition tables_of (info : Info) : list Z := List.map fst info.

Definition has_table (info : Info) (table_id : Z) : bool :=
  existsb (fun k => Z.eqb k table_id) (tables_of info).

(** [info[table_id][key]], when both keys are present. *)
Definition lookup (info : Info) (table_id : Z) (key : string) : option pyval :=
  match info_get info table_id with
  | Ok e => entry_get e key
  | Raise _ => None
  end.

(** The two keys [add_preview_columns] writes. *)
Definition written_key (key : string) : bool :=
  String.eqb key "preview_columns" || String.eqb key "table".

Definition customers_settings : TableSettings :=
  mkTableSettings "{20}" 2 preview_examples.customers.
Definition cities_settings : TableSettings :=
  mkTableSettings "{30}" 3 preview_examples.cities.
Definition unknown_settings : TableSettings :=
  mkTableSettings "{10}" 9 preview_examples.orders.

(** Entries for the customers and the cities, the first with a key of
    its own. *)
Definition sample_info : Info :=
  [(2%Z, [("template", VString "{20}")]); (3%Z, [])].

End preview_columns_spec.

(** * Properties of the relation builder *)

Module base_facts.

Import SA base base_spec.
Local Open Scope sa_scope.

(** ** Running the builder's monad *)

Lemma bind_ok {A B} (m : M A) (k : A -> M B) n a n' :
  m n = Ok (a, n') -> bind m k n = k a n'.
Proof. unfold bind; intros ->; reflexivity. Qed.

Lemma bind_raise {A B} (m : M A) (k : A -> M B) n e :
  m n = Raise e -> bind m k n = Raise e.
Proof. unfold bind; intros ->; reflexivity. Qed.

(** ** Repeated names *)

Lemma existsb_eqb_In (x : string) (l : list string) :
  existsb (String.eqb x) l = true <-> In x l.
Proof.
  rewrite existsb_exists. split.
  - intros (y & Hy & Heq). apply String.eqb_eq in Heq. now subst.
  - intros H. exists x. split; [assumption | apply String.eqb_refl].
Qed.

Lemma repeats_false_NoDup (l : list string) :
  repeats l = false <-> NoDup l.
Proof.
  induction l as [|x l IH]; simpl.
  - split; [constructor | reflexivity].
  - rewrite orb_false_iff, IH. split.
    + intros [Hx Hl]. constructor; [|assumption].
      intros Hin. apply existsb_eqb_In in Hin. congruence.
    + intros H. inversion H as [|? ? Hnotin Hnd]; subst. split; [|assumption].
      destruct (existsb (String.eqb x) l) eqn:E; [|reflexivity].
      apply existsb_eqb_In in E. contradiction.
Qed.

Lemma repeats_true_not_NoDup (l : list string) :
  repeats l = true <-> ~ NoDup l.
Proof.
  destruct (repeats l) eqn:E.
  - split; [|reflexivity]. intros _ H. apply repeats_false_NoDup in H. congruence.
  - split; [discriminate|]. intros H. exfalso. apply H.
    now apply repeats_false_NoDup.
Qed.

(** ** Base columns *)

Lemma process_initial_column_base attr ic nested_join n :
  is_base_column ic = true ->
  _process_initial_column attr ic nested_join n
  = Ok ((nested_join, base_label ic), n).
Proof.
  intros Hic. unfold _process_initial_column. rewrite Hic. reflexivity.
Qed.

Lemma initial_columns_loop_base attr cols :
  forall nested_join acc n,
    Forall (fun ic => is_base_column ic = true) cols ->
    initial_columns_loop attr cols nested_join acc n
    = Ok ((nested_join, acc ++ List.map base_label cols), n).
Proof.
  induction cols as [|ic cols IH]; intros nj acc n Hall; simpl.
  - now rewrite app_nil_r.
  - inversion Hall as [|? ? Hic Hrest]; subst.
    erewrite bind_ok by (apply process_initial_column_base; exact Hic).
    cbv beta iota.
    rewrite IH by assumption.
    now rewrite <- app_assoc.
Qed.

(** ** Join nesting *)

Lemma nest_loop_outer attr jps :
  forall i j ra n,
    nest_loop attr (S i) jps (Some j) ra n
    = Ok ((Some (fold_left outer_join jps j), ra), n).
Proof.
  induction jps as [|jp jps IH]; intros i j ra n; simpl; [reflexivity|].
  unfold bind at 1; simpl. unfold bind at 1; simpl.
  apply IH.
Qed.

Lemma alias_c_outcome attr a column_name n :
  alias_c attr a column_name n
  = if attr column_name then Ok (CollectionAttribute a column_name, n)
    else if existsb (String.eqb column_name) (table_c (element a))
         then Ok (Expression (OfAlias a column_name), n)
         else Raise AttributeError.
Proof.
  unfold alias_c.
  destruct (attr column_name); [reflexivity|].
  destruct (existsb _ _); reflexivity.
Qed.

Lemma nest_loop_first attr jp rest nested_join n :
  attr (name (right_column jp))
  || has_column (right_table jp) (right_column jp) = true ->
  nest_loop attr 0 (jp :: rest) nested_join None n
  = Ok ((Some (path_join attr (mkAlias (right_table jp) n) jp rest),
         Some (mkAlias (right_table jp) n)), S n).
Proof.
  intros Hc. simpl.
  unfold bind at 1. unfold bind at 1. unfold SA.alias at 1.
  unfold bind at 1. unfold _access_column_on_aliased_relation.
  rewrite alias_c_outcome. unfold path_join, inner_join, right_reference.
  unfold has_column in Hc. simpl.
  destruct (attr (name (right_column jp))); simpl in *.
  - unfold bind at 1; simpl. apply nest_loop_outer.
  - rewrite Hc. simpl. unfold bind at 1; simpl. apply nest_loop_outer.
Qed.

Lemma nest_loop_first_raise attr jp rest nested_join n :
  attr (name (right_column jp))
  || has_column (right_table jp) (right_column jp) = false ->
  nest_loop attr 0 (jp :: rest) nested_join None n = Raise AttributeError.
Proof.
  intros Hc. apply orb_false_iff in Hc as [Ha Hc]. simpl.
  unfold bind at 1. unfold bind at 1. unfold SA.alias at 1.
  unfold bind at 1. unfold _access_column_on_aliased_relation.
  rewrite alias_c_outcome. unfold has_column in Hc. simpl.
  rewrite Ha, Hc. reflexivity.
Qed.

(** The three outcomes of nesting the joins of a path with a last hop:
    the lookup of the hop's right column fails; or the joins are nested
    and the lookup of the target column gives an attribute of the
    collection, a column of the alias, or fails. *)
Lemma nest_a_join_outcome attr ic p jp rest nested_join n :
  jp_path ic = Some p ->
  rev p = jp :: rest ->
  _nest_a_join attr nested_join ic n
  = if attr (name (right_column jp))
       || has_column (right_table jp) (right_column jp)
    then
      if attr (name (column ic)) then
        Ok ((Some (path_join attr (mkAlias (right_table jp) n) jp rest),
             CollectionAttribute (mkAlias (right_table jp) n) (name (column ic))),
            S n)
      else if has_column (right_table jp) (column ic) then
        Ok ((Some (path_join attr (mkAlias (right_table jp) n) jp rest),
             Expression (OfAlias (mkAlias (right_table jp) n) (name (column ic)))),
            S n)
      else Raise AttributeError
    else Raise AttributeError.
Proof.
  intros Hp Hrev. unfold _nest_a_join. rewrite Hp, Hrev.
  destruct (attr (name (right_column jp))
            || has_column (right_table jp) (right_column jp)) eqn:Hr.
  - erewrite bind_ok by (apply nest_loop_first; exact Hr).
    cbv beta iota. unfold _access_column_on_aliased_relation.
    unfold bind. rewrite alias_c_outcome. unfold has_column. simpl.
    destruct (attr (name (column ic))); [reflexivity|].
    destruct (existsb _ _); reflexivity.
  - erewrite bind_raise by (apply nest_loop_first_raise; exact Hr).
    reflexivity.
Qed.

Lemma nest_a_join_hopless attr ic p nested_join n :
  jp_path ic = Some p ->
  rev p = [] ->
  _nest_a_join attr nested_join ic n = Raise AttributeError.
Proof.
  intros Hp Hrev. unfold _nest_a_join. rewrite Hp, Hrev. reflexivity.
Qed.

(** The turn of a resolvable join column. *)
Lemma process_initial_column_join attr ic p jp rest nested_join n :
  jp_path ic = Some p ->
  rev p = jp :: rest ->
  resolvable attr ic = true ->
  _process_initial_column attr ic nested_join n
  = Ok ((Some (path_join attr (mkAlias (right_table jp) n) jp rest),
         {| label_element :=
              OfAlias (mkAlias (right_table jp) n) (name (column ic));
            label_name := alias ic |}),
        S n).
Proof.
  intros Hp Hrev Hres. unfold resolvable in Hres. rewrite Hp, Hrev in Hres.
  apply andb_prop in Hres as [Hres Hc]. apply andb_prop in Hres as [Hr Ha].
  apply negb_true_iff in Ha.
  unfold _process_initial_column, is_base_column. rewrite Hp.
  unfold bind at 1.
  rewrite (nest_a_join_outcome attr ic p jp rest nested_join n Hp Hrev).
  rewrite Hr, Ha, Hc. reflexivity.
Qed.

Lemma process_initial_column_raise attr ic nested_join n :
  resolvable attr ic = false ->
  _process_initial_column attr ic nested_join n = Raise AttributeError.
Proof.
  unfold resolvable, _process_initial_column, is_base_column.
  destruct (jp_path ic) as [p|] eqn:Hp; [|discriminate].
  intros Hres. unfold bind at 1.
  destruct (rev p) as [|jp rest] eqn:Hrev.
  - now rewrite (nest_a_join_hopless attr ic p nested_join n Hp Hrev).
  - rewrite (nest_a_join_outcome attr ic p jp rest nested_join n Hp Hrev).
    destruct (attr (name (right_column jp))
              || has_column (right_table jp) (right_column jp));
      [|reflexivity].
    destruct (attr (name (column ic))); [reflexivity|].
    simpl in Hres. now rewrite Hres.
Qed.

Lemma count_joins_cons ic cols :
  count_joins (ic :: cols)
  = (if is_base_column ic then 0 else 1) + count_joins cols.
Proof.
  unfold count_joins. simpl. destruct (is_base_column ic); reflexivity.
Qed.

Lemma count_joins_app pre post :
  count_joins (pre ++ post) = count_joins pre + count_joins post.
Proof.
  unfold count_joins. now rewrite filter_app, length_app.
Qed.

Lemma count_joins_one ic cols :
  count_joins (ic :: cols) = count_joins [ic] + count_joins cols.
Proof. exact (count_joins_app [ic] cols). Qed.

(** What one resolvable column adds to the select list, and how far it
    moves the counter of fresh identities. *)
Lemma process_initial_column_ok attr ic nested_join n :
  resolvable attr ic = true ->
  exists nj' l,
    _process_initial_column attr ic nested_join n
    = Ok ((nj', l), n + count_joins [ic])
    /\ selects_for n ic l.
Proof.
  intros Hres. rewrite count_joins_cons. unfold selects_for.
  destruct (jp_path ic) as [p|] eqn:Hp.
  - assert (Hb : is_base_column ic = false)
      by (unfold is_base_column; now rewrite Hp).
    rewrite Hb.
    destruct (rev p) as [|jp rest] eqn:Hrev;
      [unfold resolvable in Hres; now rewrite Hp, Hrev in Hres|].
    eexists _, _. split.
    + rewrite (process_initial_column_join attr ic p jp rest nested_join n
                 Hp Hrev Hres).
      do 2 f_equal. unfold count_joins; simpl. lia.
    + split; [reflexivity|]. exists (right_table jp). split; [|reflexivity].
      unfold rightmost_table. now rewrite Hrev.
  - assert (Hb : is_base_column ic = true)
      by (unfold is_base_column; now rewrite Hp).
    rewrite Hb. exists nested_join, (base_label ic). split.
    + rewrite (process_initial_column_base attr ic nested_join n Hb).
      do 2 f_equal. unfold count_joins; simpl. lia.
    + split; reflexivity.
Qed.

Lemma initial_columns_loop_ok attr cols :
  forall nested_join acc n,
    forallb (resolvable attr) cols = true ->
    exists nj' ls,
      initial_columns_loop attr cols nested_join acc n
      = Ok ((nj', acc ++ ls), n + count_joins cols)
      /\ selects_all n cols ls.
Proof.
  induction cols as [|ic cols IH]; intros nj acc n Hall; simpl in *.
  - exists nj, []. rewrite app_nil_r. unfold count_joins; simpl.
    rewrite Nat.add_0_r. split; [reflexivity|]. split; [reflexivity|].
    intros [|k] ic l H; discriminate H.
  - apply andb_prop in Hall as [Hic Hrest].
    destruct (process_initial_column_ok attr ic nj n Hic)
      as (nj1 & l & Hstep & Hsel).
    destruct (IH nj1 (acc ++ [l]) (n + count_joins [ic]) Hrest)
      as (nj2 & ls & Hloop & Hlen & Hsels).
    exists nj2, (l :: ls).
    erewrite bind_ok by exact Hstep.
    cbv beta iota.
    rewrite Hloop, <- app_assoc.
    split.
    + now rewrite (count_joins_one ic cols), Nat.add_assoc.
    + split; [simpl; now rewrite Hlen|].
      intros [|k] ic' l' Hk Hl; simpl in Hk, Hl.
      * injection Hk as <-. injection Hl as <-.
        unfold count_joins; simpl. now rewrite Nat.add_0_r.
      * specialize (Hsels k ic' l' Hk Hl). simpl firstn.
        now rewrite count_joins_one, Nat.add_assoc.
Qed.

Lemma initial_columns_loop_raise attr cols :
  forall nested_join acc n,
    forallb (resolvable attr) cols = false ->
    initial_columns_loop attr cols nested_join acc n = Raise AttributeError.
Proof.
  induction cols as [|ic cols IH]; intros nj acc n H; simpl in H; [discriminate|].
  simpl. destruct (resolvable attr ic) eqn:Hic; simpl in H.
  - destruct (process_initial_column_ok attr ic nj n Hic)
      as (nj1 & l & Hstep & _).
    erewrite bind_ok by exact Hstep. cbv beta iota. now apply IH.
  - apply bind_raise. now apply process_initial_column_raise.
Qed.

Lemma initial_columns_loop_app attr pre :
  forall post nested_join acc n,
    initial_columns_loop attr (pre ++ post) nested_join acc n
    = match initial_columns_loop attr pre nested_join acc n with
      | Ok ((nj, acc'), n') => initial_columns_loop attr post nj acc' n'
      | Raise e => Raise e
      end.
Proof.
  induction pre as [|ic pre IH]; intros post nj acc n; simpl; [reflexivity|].
  unfold bind.
  destruct (_process_initial_column attr ic nj n) as [[[nj1 l] n1]|e];
    [|reflexivity].
  apply IH.
Qed.

(** ** The built relation *)

Lemma sa_relation_unfold attr q n :
  sa_relation attr q n
  = match initial_columns_loop attr (initial_columns q) None [] n with
    | Ok ((nested_join, ls), n1) =>
        Ok (mkCTE (mkSelect ls
                     match nested_join with
                     | Some j => j
                     | None => FromTable (base_table q)
                     end) n1, S n1)
    | Raise e => Raise e
    end.
Proof.
  unfold sa_relation, _get_initial_relation, bind.
  destruct (initial_columns_loop attr (initial_columns q) None [] n)
    as [[[nj ls] n1]|e]; reflexivity.
Qed.

Lemma sa_relation_raise attr q n :
  forallb (resolvable attr) (initial_columns q) = false ->
  sa_relation attr q n = Raise AttributeError.
Proof.
  intros Hall. rewrite sa_relation_unfold.
  now rewrite (initial_columns_loop_raise attr _ None [] n Hall).
Qed.

Lemma sa_relation_ok attr q n :
  forallb (resolvable attr) (initial_columns q) = true ->
  exists nj ls,
    initial_columns_loop attr (initial_columns q) None [] n
    = Ok ((nj, ls), n + count_joins (initial_columns q))
    /\ sa_relation attr q n
       = Ok (mkCTE (mkSelect ls
                      match nj with
                      | Some j => j
                      | None => FromTable (base_table q)
                      end) (n + count_joins (initial_columns q)),
             S (n + count_joins (initial_columns q)))
    /\ selects_all n (initial_columns q) ls.
Proof.
  intros Hall.
  destruct (initial_columns_loop_ok attr _ None [] n Hall)
    as (nj & ls & Hloop & Hsel).
  simpl in Hloop. exists nj, ls. split; [exact Hloop|].
  split; [|exact Hsel]. rewrite sa_relation_unfold, Hloop. reflexivity.
Qed.

Lemma sa_output_columns_unfold attr {MC : Type} (from_column : Label -> MC) q n :
  sa_output_columns attr from_column q n
  = match sa_relation attr q n with
    | Ok (r, n') =>
        match columns r with
        | Ok ls => Ok (List.map from_column ls, n')
        | Raise e => Raise e
        end
    | Raise e => Raise e
    end.
Proof.
  unfold sa_output_columns, bind.
  destruct (sa_relation attr q n) as [[r n']|e]; [|reflexivity].
  unfold lift. destruct (columns r); reflexivity.
Qed.

Lemma selects_all_names n cols :
  forall ls, selects_all n cols ls ->
    List.map label_name ls = List.map alias cols.
Proof.
  revert n. induction cols as [|ic cols IH]; intros n ls [Hlen Hsel].
  - destruct ls; [reflexivity | discriminate].
  - destruct ls as [|l ls]; [discriminate|]. simpl. f_equal.
    + exact (proj1 (Hsel 0 ic l eq_refl eq_refl)).
    + apply (IH (n + count_joins [ic])). split; [simpl in Hlen; lia|].
      intros k ic' l' Hk Hl.
      specialize (Hsel (S k) ic' l' Hk Hl). simpl firstn in Hsel.
      now rewrite count_joins_one, Nat.add_assoc in Hsel.
Qed.

Lemma columns_outcome (r : CTE) :
  (NoDup (List.map label_name (columns_clause (cte_element r))) ->
   columns r = Ok (columns_clause (cte_element r)))
  /\ (~ NoDup (List.map label_name (columns_clause (cte_element r))) ->
      columns r = Raise InvalidRequestError).
Proof.
  unfold columns. split; intros H.
  - apply repeats_false_NoDup in H. now rewrite H.
  - apply repeats_true_not_NoDup in H. now rewrite H.
Qed.

(** ** Distinct aliases *)


Lemma selects_for_alias n ic l a c :
  selects_for n ic l ->
  label_element l = OfAlias a c ->
  is_base_column ic = false /\ alias_id a = n.
Proof.
  intros [_ Hsel] Hel. unfold is_base_column.
  destruct (jp_path ic) as [p|].
  - destruct Hsel as (t & _ & Ht). rewrite Ht in Hel. injection Hel as <- _.
    split; reflexivity.
  - rewrite Hsel in Hel. discriminate.
Qed.


(** ** The last join column *)

(** The loop over a list whose last join column is [ic]: the columns
    before it only move the counter, and the join that is left is the
    one nested for [ic], onto the alias that [ic] is selected on. *)
Lemma initial_columns_loop_last_join attr pre ic post p jp rest n :
  forallb (resolvable attr) (pre ++ ic :: post) = true ->
  jp_path ic = Some p ->
  rev p = jp :: rest ->
  Forall (fun c => is_base_column c = true) post ->
  exists ls1,
    List.length ls1 = List.length pre
    /\ selects_all n pre ls1
    /\ initial_columns_loop attr (pre ++ ic :: post) None [] n
       = Ok ((Some (path_join attr
                      (mkAlias (right_table jp) (n + count_joins pre)) jp rest),
              ls1
              ++ {| label_element :=
                      OfAlias (mkAlias (right_table jp) (n + count_joins pre))
                        (name (column ic));
                    label_name := alias ic |}
                 :: List.map base_label post),
             S (n + count_joins pre)).
Proof.
  intros Hall Hp Hrev Hpost.
  rewrite forallb_app in Hall. apply andb_prop in Hall as [Hpre Hrest].
  simpl in Hrest. apply andb_prop in Hrest as [Hic _].
  destruct (initial_columns_loop_ok attr pre None [] n Hpre)
    as (nj1 & ls1 & Hloop1 & Hsel1).
  simpl in Hloop1.
  exists ls1. split; [exact (proj1 Hsel1)|]. split; [exact Hsel1|].
  rewrite initial_columns_loop_app, Hloop1.
  cbn [initial_columns_loop].
  erewrite bind_ok
    by (apply (process_initial_column_join attr ic p jp rest); eassumption).
  cbv beta iota.
  rewrite (initial_columns_loop_base attr post _ _ _ Hpost).
  now rewrite <- app_assoc.
Qed.


(** ** Base columns only *)

(** C1 fails as stated: with two base columns under the same alias the
    relation is built, but its output columns cannot be read. *)
Lemma equal_aliases_counterexample :
  ~ (forall (attr : string -> bool) (q : DBQuery) (n : nat),
        Forall (fun ic => is_base_column ic = true) (initial_columns q) ->
        exists r n' cols,
          sa_relation attr q n = Ok (r, n')
          /\ columns r = Ok cols
          /\ Forall2 (fun ic l =>
                        label_name l = alias ic
                        /\ label_element l = OfTable (column ic))
               (initial_columns q) cols).
Proof.
  intros H.
  destruct (H base_examples.collection_methods base_examples.same_alias_query 0)
    as (r & n' & cols & Hr & Hc & _).
  - repeat constructor.
  - vm_compute in Hr. injection Hr as <- _. vm_compute in Hc. discriminate Hc.
Qed.

(** C1, amended.  When every initial column is a base column, the
    relation is built and its select list holds, in the order of the
    input list, one entry per initial column: the column itself, under
    the alias of the initial column as its label name.  When no two
    initial columns have the same alias, the output columns of the
    relation are exactly these entries, and [sa_output_columns] returns
    them enriched, in the same order.  When two initial columns have the
    same alias, reading the output columns raises [InvalidRequestError]. *)
Theorem base_columns_relation (attr : string -> bool) (q : DBQuery) (n : nat) :
  Forall (fun ic => is_base_column ic = true) (initial_columns q) ->
  exists r n',
    sa_relation attr q n = Ok (r, n')
    /\ Forall2 (fun ic l =>
                  label_name l = alias ic
                  /\ label_element l = OfTable (column ic))
         (initial_columns q) (columns_clause (cte_element r))
    /\ (NoDup (List.map alias (initial_columns q)) ->
        columns r = Ok (columns_clause (cte_element r))
        /\ forall (MathesarColumn : Type) (from_column : Label -> MathesarColumn),
             sa_output_columns attr from_column q n
             = Ok (List.map from_column (columns_clause (cte_element r)), n'))
    /\ (~ NoDup (List.map alias (initial_columns q)) ->
        columns r = Raise InvalidRequestError
        /\ forall (MathesarColumn : Type) (from_column : Label -> MathesarColumn),
             sa_output_columns attr from_column q n
             = Raise InvalidRequestError).
Proof.
  intros Hall.
  exists (mkCTE (mkSelect (List.map base_label (initial_columns q))
                   (FromTable (base_table q))) n), (S n).
  assert (Hrel : sa_relation attr q n
                 = Ok (mkCTE (mkSelect (List.map base_label (initial_columns q))
                                (FromTable (base_table q))) n, S n)).
  { rewrite sa_relation_unfold.
    now rewrite (initial_columns_loop_base attr _ None [] n Hall). }
  assert (Hnames : List.map label_name (List.map base_label (initial_columns q))
                   = List.map alias (initial_columns q)).
  { rewrite map_map. reflexivity. }
  split; [exact Hrel|]. cbn [cte_element columns_clause].
  split.
  { clear. induction (initial_columns q) as [|ic cols IH]; simpl;
      constructor; [split; reflexivity | exact IH]. }
  split; intros Hnd.
  - assert (Hcols : columns (mkCTE (mkSelect (List.map base_label (initial_columns q))
                                      (FromTable (base_table q))) n)
                    = Ok (List.map base_label (initial_columns q))).
    { apply (proj1 (columns_outcome
                      (mkCTE (mkSelect (List.map base_label (initial_columns q))
                                (FromTable (base_table q))) n))).
      cbn [cte_element columns_clause]. now rewrite Hnames. }
    split; [exact Hcols|].
    intros MC from_column. rewrite sa_output_columns_unfold, Hrel, Hcols.
    reflexivity.
  - assert (Hcols : columns (mkCTE (mkSelect (List.map base_label (initial_columns q))
                                      (FromTable (base_table q))) n)
                    = Raise InvalidRequestError).
    { apply (proj2 (columns_outcome
                      (mkCTE (mkSelect (List.map base_label (initial_columns q))
                                (FromTable (base_table q))) n))).
      cbn [cte_element columns_clause]. now rewrite Hnames. }
    split; [exact Hcols|].
    intros MC from_column. rewrite sa_output_columns_unfold, Hrel, Hcols.
    reflexivity.
Qed.

Lemma base_columns_relation_witness :
  exists r n',
    sa_relation base_examples.collection_methods base_examples.base_query 0
    = Ok (r, n')
    /\ columns_clause (cte_element r)
       = [ {| label_element := OfTable base_examples.orders_id;
              label_name := "order" |};
           {| label_element := OfTable base_examples.orders_customer_id;
              label_name := "customer" |} ]
    /\ sa_output_columns base_examples.collection_methods label_name
         base_examples.base_query 0
       = Ok (["order"; "customer"]%string, n').
Proof.
  destruct (base_columns_relation base_examples.collection_methods
              base_examples.base_query 0)
    as (r & n' & Hrel & _ & Hdistinct & _).
  - repeat constructor.
  - exists r, n'. split; [exact Hrel|].
    assert (Hnd : NoDup (List.map alias
                           (initial_columns base_examples.base_query))).
    { apply repeats_false_NoDup. reflexivity. }
    destruct (Hdistinct Hnd) as [_ Hout].
    specialize (Hout string label_name).
    vm_compute in Hrel. injection Hrel as <- <-.
    split; [reflexivity | exact Hout].
Defined.

(** ** Aliases of the rightmost tables *)



(** ** Transformations *)

(** C9.  The transformation step returns its input relation whatever
    the transformations argument is, a non-empty list included: the
    relation of a query is its initial relation, and replacing the
    transformations of a query does not change it. *)
Theorem transformations_never_applied :
  (forall (r : Relation) (ts : option (list Transformation)),
      _apply_transformations r ts = r)
  /\ (forall (attr : string -> bool) (q : DBQuery) (n : nat),
        sa_relation attr q n = _get_initial_relation attr q n)
  /\ (forall (attr : string -> bool) (q : DBQuery)
             (ts : option (list Transformation)) (n : nat),
        sa_relation attr (with_transformations q ts) n = sa_relation attr q n).
Proof.
  assert (Hrel : forall attr q n,
             sa_relation attr q n = _get_initial_relation attr q n).
  { intros attr q n. unfold sa_relation, _apply_transformations, bind, ret.
    destruct (_get_initial_relation attr q n) as [[r n']|e]; reflexivity. }
  split; [reflexivity|]. split; [exact Hrel|].
  intros attr q ts n. rewrite !Hrel. reflexivity.
Qed.

(** C3 fails as stated: the pipeline does not apply a non-empty list of
    transformations in order.  On a relation with one output column and
    the single transformation that drops every column, it returns the
    relation with its column. *)
Lemma pipeline_in_order_counterexample :
  ~ (forall (r : Relation) (ts : list Transformation),
        ts <> [] ->
        _apply_transformations r (Some ts) = apply_in_order ts r).
Proof.
  intros H.
  specialize (H base_examples.one_column [base_examples.drop_columns]).
  assert (Hne : [base_examples.drop_columns] <> []) by discriminate.
  specialize (H Hne). discriminate H.
Qed.

(** C3, amended.  For the empty list of transformations, and when no
    list is given, the pipeline is the identity on relations; for every
    list, empty or not, it returns the relation it was given, so it
    agrees with the application in list order exactly when that
    application leaves the relation unchanged. *)
Theorem pipeline_identity :
  (forall r : Relation,
      _apply_transformations r (Some []) = r
      /\ _apply_transformations r None = r
      /\ _apply_transformations r (Some []) = apply_in_order [] r)
  /\ (forall (r : Relation) (ts : list Transformation),
        _apply_transformations r (Some ts) = r)
  /\ (forall (r : Relation) (ts : list Transformation),
        _apply_transformations r (Some ts) = apply_in_order ts r
        <-> apply_in_order ts r = r).
Proof.
  split; [|split].
  - intros r. repeat split.
  - intros r ts. reflexivity.
  - intros r ts. unfold _apply_transformations. split; intros H; now symmetry.
Qed.

(** ** Join paths are not validated *)


Lemma sa_relation_only_AttributeError attr q n e :
  sa_relation attr q n = Raise e -> e = AttributeError.
Proof.
  intros H.
  destruct (forallb (resolvable attr) (initial_columns q)) eqn:Hall.
  - destruct (sa_relation_ok attr q n Hall) as (nj & ls & _ & Hrel & _).
    rewrite Hrel in H. discriminate H.
  - rewrite (sa_relation_raise attr q n Hall) in H. now injection H.
Qed.





End base_facts.

(** * Properties of the text operations *)

Module PyStr_facts.

Import PyStr PyStr_spec.









(** *** Placeholder scan *)



(** *** Replacement *)





(** A text without an opening brace holds no occurrence of a text that
    starts with one. *)
Lemma replace_scan_no_open (old new s : string) :
  all_chars (fun c => negb (Ascii.eqb c "{")) s = true ->
  replace_scan (String "{" old) new 0 s = s.
Proof.
  induction s as [|c s IH]; cbn [replace_scan strip_prefix all_chars];
    [reflexivity|].
  intros H. apply andb_prop in H as [Hc Hs].
  apply negb_true_iff in Hc. rewrite Ascii.eqb_sym in Hc.
  rewrite Hc, (IH Hs). reflexivity.
Qed.





End PyStr_facts.

(** * Properties of the preview resolver *)

Module preview_facts.

Import preview preview_spec PyStr_spec PyStr_facts preview_more.

Lemma extends_refl {A} (l : list A) : extends l l.
Proof. exists []. now rewrite app_nil_r. Qed.

Lemma extends_trans {A} (a b c : list A) :
  extends a b -> extends b c -> extends a c.
Proof.
  intros [x ->] [y ->]. exists (x ++ y). now rewrite app_assoc.
Qed.

Lemma extends_app {A} (a b : list A) : extends a (a ++ b).
Proof. now exists b. Qed.



Lemma occurrences_app d (a b : list InitialColumnDict) :
  occurrences d (a ++ b) = occurrences d a + occurrences d b.
Proof. unfold occurrences. now rewrite filter_app, length_app. Qed.


(** ** Dictionaries *)

Lemma dict_get_set (d : PreviewInfo) k v : dict_get (dict_set d k v) k = Some v.
Proof.
  assert (Hrefl : pykey_eqb k k = true).
  { destruct k; simpl; [apply Z.eqb_refl | apply String.eqb_refl]. }
  induction d as [|[k' v'] d IH]; simpl.
  - now rewrite Hrefl.
  - destruct (pykey_eqb k' k) eqn:E; simpl; rewrite E; auto.
Qed.

Lemma dict_keys_set (d : PreviewInfo) k v k0 :
  In k0 (dict_keys (dict_set d k v)) -> In k0 (dict_keys d) \/ k0 = k.
Proof.
  induction d as [|[k' v'] d IH]; simpl.
  - intros [<-|[]]. now right.
  - destruct (pykey_eqb k' k); simpl.
    + tauto.
    + intros [<-|H]; [now left; left|].
      destruct (IH H); [left; now right | now right].
Qed.

Lemma dict_contains_int_keys (d : PreviewInfo) (s : string) :
  forallb int_key (dict_keys d) = true -> dict_contains d (KStr s) = false.
Proof.
  induction d as [|[k v] d IH]; simpl; [reflexivity|].
  intros H. apply andb_prop in H as [Hk Hd].
  destruct k; [|discriminate]. simpl. now apply IH.
Qed.

Section Loop.

Variable orm : ORM.
Variable rec :
  string -> Z -> option (list Column) -> Path -> list InitialColumnDict ->
  result (PreviewInfo * list InitialColumnDict).
Variable fk_previews : string.
Variable previous_path : Path.
Variable exising_columns : list InitialColumnDict.

(** ** The loop over the placeholder ids *)

Lemma leaf_fold rinfo prefix cp (ids : list string) :
  forall t cols,
    fold_left (leaf_step rinfo prefix cp) ids (t, cols)
    = (fold_left (rewrite_leaf prefix) (leaf_ids rinfo ids) t,
       cols ++ List.map
                 (fun i => mkInitialColumnDict i (leaf_alias prefix i) cp)
                 (leaf_ids rinfo ids)).
Proof.
  induction ids as [|i ids IH]; intros t cols; simpl.
  - now rewrite app_nil_r.
  - destruct (dict_contains rinfo (KStr i)); simpl.
    + apply IH.
    + rewrite IH, <- app_assoc. reflexivity.
Qed.

(** ** One constraint *)

Lemma constraint_step_ok st fk cc rc pdc rinfo rcols :
  first (columns fk) = Ok cc ->
  first (referent_columns fk) = Ok rc ->
  Column_objects_filter orm (PyStr.findall_braces (template (table rc))) = Ok pdc ->
  rec fk_previews (table_id (table rc)) (Some pdc)
    (previous_path ++ [(id cc, id rc)]) exising_columns = Ok (rinfo, rcols) ->
  constraint_step orm rec fk_previews previous_path exising_columns st fk
  = Ok (step_result previous_path st cc rc rinfo rcols).
Proof.
  intros Hcc Hrc Hpdc Hrec. destruct st as [info cols].
  unfold constraint_step, step_result.
  rewrite Hcc; simpl. rewrite Hrc; simpl. rewrite Hpdc; simpl.
  rewrite Hrec; simpl.
  rewrite leaf_fold. rewrite <- app_assoc. reflexivity.
Qed.

Lemma constraint_step_inv st st' fk :
  constraint_step orm rec fk_previews previous_path exising_columns st fk = Ok st' ->
  exists cc rc pdc rinfo rcols,
    first (columns fk) = Ok cc
    /\ first (referent_columns fk) = Ok rc
    /\ Column_objects_filter orm (PyStr.findall_braces (template (table rc)))
       = Ok pdc
    /\ rec fk_previews (table_id (table rc)) (Some pdc)
         (previous_path ++ [(id cc, id rc)]) exising_columns = Ok (rinfo, rcols)
    /\ st' = step_result previous_path st cc rc rinfo rcols.
Proof.
  intros H.
  destruct (first (columns fk)) as [cc|e] eqn:Hcc;
    [|destruct st; unfold constraint_step in H; rewrite Hcc in H; discriminate].
  destruct (first (referent_columns fk)) as [rc|e] eqn:Hrc;
    [|destruct st; unfold constraint_step in H; rewrite Hcc in H; simpl in H;
      rewrite Hrc in H; discriminate].
  destruct (Column_objects_filter orm (PyStr.findall_braces (template (table rc))))
    as [pdc|e] eqn:Hpdc;
    [|destruct st; unfold constraint_step in H; rewrite Hcc in H; simpl in H;
      rewrite Hrc in H; simpl in H; rewrite Hpdc in H; discriminate].
  destruct (rec fk_previews (table_id (table rc)) (Some pdc)
              (previous_path ++ [(id cc, id rc)]) exising_columns)
    as [[rinfo rcols]|e] eqn:Hrec;
    [|destruct st; unfold constraint_step in H; rewrite Hcc in H; simpl in H;
      rewrite Hrc in H; simpl in H; rewrite Hpdc in H; simpl in H;
      rewrite Hrec in H; discriminate].
  exists cc, rc, pdc, rinfo, rcols.
  rewrite (constraint_step_ok st fk cc rc pdc rinfo rcols Hcc Hrc Hpdc Hrec) in H.
  injection H as <-. repeat split; assumption.
Qed.

(** ** The loop over the constraints *)

Variable preds : list (Constraint -> result bool).

(** A property of the loop state kept by every turn that a surviving
    constraint takes holds when the loop returns. *)
Lemma constraints_loop_invariant
    (Inv : PreviewInfo * list InitialColumnDict -> Prop) (cs : list Constraint) :
  (forall fk st st',
      In fk cs -> passes preds fk = Ok true ->
      Inv st ->
      constraint_step orm rec fk_previews previous_path exising_columns st fk
      = Ok st' ->
      Inv st') ->
  forall st st', Inv st -> constraints_loop orm rec fk_previews preds previous_path exising_columns cs st
    = Ok st' -> Inv st'.
Proof.
  induction cs as [|fk cs IH]; intros Hstep st st' Hinv H; simpl in H.
  - now injection H as <-.
  - destruct (passes preds fk) as [[|]|e] eqn:Hp; simpl in H; try discriminate.
    + destruct (constraint_step orm rec fk_previews previous_path exising_columns
                  st fk) as [st1|e] eqn:Hs; simpl in H; try discriminate.
      apply (IH (fun fk' a b Hin => Hstep fk' a b (or_intror Hin)) st1 st');
        [|exact H].
      apply (Hstep fk st st1); auto. now left.
    + apply (IH (fun fk' a b Hin => Hstep fk' a b (or_intror Hin)) st st');
        assumption.
Qed.

Lemma step_extends st st' fk :
  constraint_step orm rec fk_previews previous_path exising_columns st fk
  = Ok st' ->
  extends (snd st) (snd st').
Proof.
  intros H. apply constraint_step_inv in H
    as (cc & rc & pdc & rinfo & rcols & _ & _ & _ & _ & ->).
  apply extends_app.
Qed.

Lemma constraints_loop_extends cs st st' :
  constraints_loop orm rec fk_previews preds previous_path exising_columns cs st
    = Ok st' -> extends (snd st) (snd st').
Proof.
  apply (constraints_loop_invariant (fun s => extends (snd st) (snd s)) cs).
  - intros fk a b _ _ Ha Hs.
    eapply extends_trans; [exact Ha | eapply step_extends; eauto].
  - apply extends_refl.
Qed.

(** Every key of the returned preview info was there at the start or
    is the id of the constrained column of a surviving constraint. *)
Lemma constraints_loop_keys cs st st' :
  constraints_loop orm rec fk_previews preds previous_path exising_columns cs st
    = Ok st' ->
  forall k,
    In k (dict_keys (fst st')) ->
    In k (dict_keys (fst st))
    \/ exists fk cc,
         In fk cs /\ passes preds fk = Ok true
         /\ first (columns fk) = Ok cc /\ k = KInt (id cc).
Proof.
  apply (constraints_loop_invariant
           (fun s => forall k,
                In k (dict_keys (fst s)) ->
                In k (dict_keys (fst st))
                \/ exists fk cc,
                     In fk cs /\ passes preds fk = Ok true
                     /\ first (columns fk) = Ok cc /\ k = KInt (id cc)) cs).
  - intros fk a b Hin Hp Ha Hs k Hk.
    apply constraint_step_inv in Hs
      as (cc & rc & pdc & rinfo & rcols & Hcc & _ & _ & _ & ->).
    simpl in Hk. apply dict_keys_set in Hk as [Hk| ->].
    + now apply Ha.
    + right. now exists fk, cc.
  - intros k Hk. now left.
Qed.

(** A surviving constraint gets its turn: the loop passes through the
    state before and after the turn, and the column list only grows
    around it. *)
Lemma constraints_loop_visits cs :
  forall st st' fk,
    constraints_loop orm rec fk_previews preds previous_path exising_columns cs st
    = Ok st' ->
    In fk cs -> passes preds fk = Ok true ->
    exists st1 st2,
      extends (snd st) (snd st1)
      /\ constraint_step orm rec fk_previews previous_path exising_columns
           st1 fk = Ok st2
      /\ extends (snd st2) (snd st').
Proof.
  induction cs as [|c cs IH]; intros st st' fk H Hin Hp; [destruct Hin|].
  simpl in H.
  destruct (passes preds c) as [[|]|e] eqn:Hpc; simpl in H; try discriminate.
  - destruct (constraint_step orm rec fk_previews previous_path exising_columns
                st c) as [st1|e] eqn:Hs; simpl in H; try discriminate.
    destruct Hin as [->|Hin].
    + exists st, st1. split; [apply extends_refl|]. split; [exact Hs|].
      eapply constraints_loop_extends; eauto.
    + destruct (IH st1 st' fk H Hin Hp) as (s1 & s2 & He & Hs' & He').
      exists s1, s2. split; [|now split].
      eapply extends_trans; [eapply step_extends; eauto | exact He].
  - destruct Hin as [->|Hin]; [congruence|].
    now apply (IH st st' fk H Hin Hp).
Qed.

End Loop.

(** ** The resolver *)

Lemma select_fk_constraints_source orm fk_previews pk restrict :
  source (select_fk_constraints orm fk_previews pk restrict) = foreign_keys orm pk.
Proof.
  unfold select_fk_constraints.
  destruct (String.eqb fk_previews "auto"); destruct restrict as [[|c cs]|];
    reflexivity.
Qed.


(** A call that returns went through the loop over the selected
    constraints, started on the empty preview info and the columns
    passed in. *)
Lemma get_preview_info_unfold orm depth fk_previews pk restrict path existing r :
  get_preview_info orm depth fk_previews pk restrict path existing = Ok r ->
  exists depth',
    depth = S depth'
    /\ constraints_loop orm (get_preview_info orm depth') fk_previews
         (predicates (select_fk_constraints orm fk_previews pk restrict))
         path existing (foreign_keys orm pk) ([], existing) = Ok r.
Proof.
  destruct depth as [|depth']; simpl; [discriminate|].
  intros H. exists depth'. split; [reflexivity|].
  unfold get_preview_info_body, get_constrained_columns_by_referent_table in H.
  now rewrite select_fk_constraints_source in H.
Qed.

(** ** The depth allowance

    A call that returns within some depth returns the same result within
    any larger depth. *)

Lemma constraints_loop_mono orm rec rec' fk_previews preds previous_path existing :
  (forall m pk restrict path cols r,
      rec m pk restrict path cols = Ok r -> rec' m pk restrict path cols = Ok r) ->
  forall cs st r,
    constraints_loop orm rec fk_previews preds previous_path existing cs st = Ok r ->
    constraints_loop orm rec' fk_previews preds previous_path existing cs st = Ok r.
Proof.
  intros Hrec. induction cs as [|fk cs IH]; intros st r H; simpl in *; [exact H|].
  destruct (passes preds fk) as [[|]|e]; simpl in *; try discriminate; auto.
  destruct (constraint_step orm rec fk_previews previous_path existing st fk)
    as [st1|e] eqn:Hs; simpl in H; try discriminate.
  apply constraint_step_inv in Hs
    as (cc & rc & pdc & rinfo & rcols & Hcc & Hrc & Hpdc & Hcall & ->).
  rewrite (constraint_step_ok orm rec' _ _ _ _ _ _ _ _ _ _ Hcc Hrc Hpdc
             (Hrec _ _ _ _ _ _ Hcall)).
  simpl. now apply IH.
Qed.

Lemma get_preview_info_depth_mono orm depth :
  forall fk_previews pk restrict path existing r,
    get_preview_info orm depth fk_previews pk restrict path existing = Ok r ->
    get_preview_info orm (S depth) fk_previews pk restrict path existing = Ok r.
Proof.
  induction depth as [|depth IH]; intros fk_previews pk restrict path existing r H;
    [discriminate|].
  cbn [get_preview_info] in *.
  unfold get_preview_info_body, get_constrained_columns_by_referent_table in *.
  eapply constraints_loop_mono; [|exact H].
  intros m pk' restrict' path' cols r'. apply IH.
Qed.

(** C10.  The column list returned by the resolver begins with the list
    of existing columns it was given, in the order given: descriptors are
    only added after them.  This holds of the loop over the constraints,
    whatever the recursive calls return, and so of every call of
    [get_preview_info] that returns. *)
Theorem existing_columns_prefix orm :
  (forall rec fk_previews fk_constraints previous_path existing info cols,
      get_constrained_columns_by_referent_table orm rec fk_previews fk_constraints
        previous_path existing = Ok (info, cols) ->
      exists added, cols = existing ++ added)
  /\ (forall depth fk_previews pk restrict path existing info cols,
        get_preview_info orm depth fk_previews pk restrict path existing
        = Ok (info, cols) ->
        exists added, cols = existing ++ added).
Proof.
  split.
  - intros rec fk_previews fk_constraints previous_path existing info cols H.
    unfold get_constrained_columns_by_referent_table in H.
    exact (constraints_loop_extends _ _ _ _ _ _ _ _ _ H).
  - intros depth fk_previews pk restrict path existing info cols H.
    apply get_preview_info_unfold in H as (depth' & _ & H).
    exact (constraints_loop_extends _ _ _ _ _ _ _ _ _ H).
Qed.

Lemma existing_columns_prefix_witness :
  exists info cols,
    get_preview_info preview_examples.store 3 "auto" 2 None []
      [preview_examples.city_name_of_customer] = Ok (info, cols)
    /\ exists added, cols = [preview_examples.city_name_of_customer] ++ added.
Proof.
  eexists _, _. split; [vm_compute; reflexivity|].
  eapply (proj2 (existing_columns_prefix preview_examples.store)
            3 "auto"%string 2%Z None [] [preview_examples.city_name_of_customer]).
  vm_compute. reflexivity.
Defined.

(** ** Keys, aliases and entries *)

Lemma pykey_eqb_eq (a b : pykey) : pykey_eqb a b = true -> a = b.
Proof.
  destruct a, b; simpl; try discriminate; intros H.
  - apply Z.eqb_eq in H. now subst.
  - apply String.eqb_eq in H. now subst.
Qed.

Lemma dict_get_set_other (d : PreviewInfo) k v k' :
  pykey_eqb k k' = false -> dict_get (dict_set d k v) k' = dict_get d k'.
Proof.
  intros H. induction d as [|[k0 v0] d IH]; simpl.
  - now rewrite H.
  - destruct (pykey_eqb k0 k) eqn:E; simpl.
    + apply pykey_eqb_eq in E. subst k0. now rewrite H.
    + destruct (pykey_eqb k0 k'); [reflexivity | exact IH].
Qed.

Lemma survives_passes preds fk :
  survives preds fk = true <-> passes preds fk = Ok true.
Proof.
  unfold survives. destruct (passes preds fk) as [[|]|e]; split; congruence.
Qed.

(** The prefix the code joins from the hops is the text of the hops in
    path order, separated by three underscores. *)
Lemma path_prefix_of_text (p : Path) : path_prefix_of p = prefix_text p.
Proof.
  unfold path_prefix_of. induction p as [|h p IH]; [reflexivity|].
  destruct p as [|h' p]; [reflexivity|].
  change (PyStr.join "___" (List.map format_hop (h :: h' :: p)))
    with (format_hop h ++ "___"
          ++ PyStr.join "___" (List.map format_hop (h' :: p)))%string.
  rewrite IH. reflexivity.
Qed.

Lemma leaf_alias_text (p : Path) (i : string) :
  leaf_alias (path_prefix_of p) i = alias_text p i.
Proof. unfold leaf_alias, alias_text. now rewrite path_prefix_of_text. Qed.

Lemma descriptor_text (p : Path) (i : string) :
  descriptor p i
  = {| ic_id := i; ic_alias := alias_text p i; ic_jp_path := p |}.
Proof.
  unfold descriptor.
  change (PyStr.join "___" (List.map format_hop p)) with (path_prefix_of p).
  now rewrite leaf_alias_text.
Qed.

Lemma rewrite_leaf_text (p : Path) (t i : string) :
  rewrite_leaf (path_prefix_of p) t i
  = PyStr.replace t (braces i) (braces (alias_text p i)).
Proof. unfold rewrite_leaf. now rewrite leaf_alias_text. Qed.

Lemma fold_rewrite_leaf_text (p : Path) (ids : list string) :
  forall t,
    fold_left (rewrite_leaf (path_prefix_of p)) ids t
    = fold_left
        (fun t i => PyStr.replace t (braces i) (braces (alias_text p i))) ids t.
Proof.
  induction ids as [|i ids IH]; intros t; [reflexivity|].
  cbn [fold_left]. now rewrite rewrite_leaf_text, IH.
Qed.

Lemma map_descriptor_text (p : Path) (ids : list string) :
  List.map (descriptor p) ids
  = List.map
      (fun i => {| ic_id := i; ic_alias := alias_text p i; ic_jp_path := p |})
      ids.
Proof. apply map_ext. intros i. apply descriptor_text. Qed.









(** ** Nested templates *)



Lemma int_keys_forallb (rinfo : PreviewInfo) :
  (forall k, In k (dict_keys rinfo) -> exists z, k = KInt z) ->
  forallb int_key (dict_keys rinfo) = true.
Proof.
  intros H. apply forallb_forall. intros k Hk.
  destruct (H k Hk) as (z & ->). reflexivity.
Qed.



(** ** The entry a returning loop holds for a constrained column *)

Section FinalEntry.

Variable orm : ORM.
Variable rec :
  string -> Z -> option (list Column) -> Path -> list InitialColumnDict ->
  result (PreviewInfo * list InitialColumnDict).
Variable fk_previews : string.
Variable previous_path : Path.
Variable exising_columns : list InitialColumnDict.
Variable preds : list (Constraint -> result bool).

Lemma constraints_loop_final_entry (cc rc : Column) pdc rinfo rcols cs :
  Column_objects_filter orm (PyStr.findall_braces (template (table rc))) = Ok pdc ->
  rec fk_previews (table_id (table rc)) (Some pdc)
    (previous_path ++ [(id cc, id rc)]) exising_columns = Ok (rinfo, rcols) ->
  (forall fk c,
      In fk cs -> first (columns fk) = Ok c -> id c = id cc ->
      first (referent_columns fk) = Ok rc) ->
  forall st st',
    constraints_loop orm rec fk_previews preds previous_path exising_columns cs st
    = Ok st' ->
    (exists fk, In fk cs /\ passes preds fk = Ok true /\ first (columns fk) = Ok cc)
    \/ dict_get (fst st) (KInt (id cc))
       = Some (step_entry previous_path cc rc rinfo) ->
    dict_get (fst st') (KInt (id cc))
    = Some (step_entry previous_path cc rc rinfo).
Proof.
  intros Hpdc Hrec. induction cs as [|fk0 cs IH]; intros Huniq st st' H Hor.
  - simpl in H. injection H as <-.
    destruct Hor as [(fk & [] & _)|Hget]. exact Hget.
  - simpl in H.
    assert (Huniq' : forall fk c,
               In fk cs -> first (columns fk) = Ok c -> id c = id cc ->
               first (referent_columns fk) = Ok rc).
    { intros fk c Hin. apply Huniq. now right. }
    destruct (passes preds fk0) as [[|]|e] eqn:Hp; simpl in H; try discriminate.
    + destruct (constraint_step orm rec fk_previews previous_path exising_columns
                  st fk0) as [st1|e] eqn:Hs; simpl in H; try discriminate.
      apply constraint_step_inv in Hs
        as (cc0 & rc0 & pdc0 & rinfo0 & rcols0 & Hcc0 & Hrc0 & Hpdc0 & Hrec0 & ->).
      apply (IH Huniq' _ st' H).
      destruct (Z.eq_dec (id cc0) (id cc)) as [Hid|Hid].
      * right.
        pose proof (Huniq fk0 cc0 (or_introl eq_refl) Hcc0 Hid) as Hrc'.
        rewrite Hrc0 in Hrc'. injection Hrc' as ->.
        rewrite Hpdc in Hpdc0. injection Hpdc0 as <-.
        rewrite Hid, Hrec in Hrec0. injection Hrec0 as <- <-.
        unfold step_result, step_entry. cbn [fst]. rewrite Hid.
        apply dict_get_set.
      * destruct Hor as [(fk & [->|Hin] & Hpf & Hcf)|Hget].
        -- rewrite Hcc0 in Hcf. injection Hcf as ->. now contradiction Hid.
        -- left. now exists fk.
        -- right. unfold step_result. cbn [fst].
           rewrite dict_get_set_other; [exact Hget|].
           simpl. now apply Z.eqb_neq.
    + apply (IH Huniq' st st' H).
      destruct Hor as [(fk & [->|Hin] & Hpf & Hcf)|Hget];
        [congruence | left; now exists fk | now right].
Qed.

End FinalEntry.

(** The keys of a returned preview info are the ids of the constrained
    columns of foreign keys of the table. *)
Lemma get_preview_info_keys orm depth fk_previews pk restrict path existing
    info cols :
  get_preview_info orm depth fk_previews pk restrict path existing
  = Ok (info, cols) ->
  forall k,
    In k (dict_keys info) ->
    exists fk c,
      In fk (foreign_keys orm pk) /\ first (columns fk) = Ok c /\ k = KInt (id c).
Proof.
  intros H k Hk. apply get_preview_info_unfold in H as (depth' & _ & H).
  destruct (constraints_loop_keys _ _ _ _ _ _ _ _ _ H k Hk)
    as [[]|(fk & cc & Hin & _ & Hcc & ->)].
  now exists fk, cc.
Qed.

(** The turn of a surviving foreign key in a call that returns: the
    column lookup and the recursive call it made, where its descriptors
    are in the returned list, and the entry that is returned for its
    constrained column when no other foreign key of that column refers
    elsewhere. *)
Lemma get_preview_info_turn orm depth fk_previews pk restrict path existing
    info cols fk cc rc :
  get_preview_info orm depth fk_previews pk restrict path existing
  = Ok (info, cols) ->
  In fk (foreign_keys orm pk) ->
  survives (filters orm fk_previews pk restrict) fk = true ->
  first (columns fk) = Ok cc ->
  first (referent_columns fk) = Ok rc ->
  exists depth' pdc rinfo rcols before after,
    depth = S depth'
    /\ Column_objects_filter orm (PyStr.findall_braces (template (table rc)))
       = Ok pdc
    /\ get_preview_info orm depth' fk_previews (table_id (table rc)) (Some pdc)
         (path ++ [(id cc, id rc)]) existing = Ok (rinfo, rcols)
    /\ cols
       = existing ++ before ++ rcols
         ++ List.map (descriptor (path ++ [(id cc, id rc)]))
              (leaf_ids rinfo (PyStr.findall_braces (template (table rc))))
         ++ after
    /\ (refers_to orm pk cc rc ->
        dict_get info (KInt (id cc)) = Some (step_entry path cc rc rinfo)).
Proof.
  intros H Hin Hs Hcc Hrc.
  apply survives_passes in Hs. unfold filters in Hs.
  apply get_preview_info_unfold in H as (depth' & -> & H).
  destruct (constraints_loop_visits _ _ _ _ _ _ _ _ _ _ H Hin Hs)
    as (st1 & st2 & He1 & Hstep & He2).
  apply constraint_step_inv in Hstep
    as (cc' & rc' & pdc & rinfo & rcols & Hcc' & Hrc' & Hpdc & Hrec & ->).
  rewrite Hcc in Hcc'; injection Hcc' as <-.
  rewrite Hrc in Hrc'; injection Hrc' as <-.
  destruct He1 as [before Hb]. destruct He2 as [after Ha].
  simpl in Hb, Ha.
  exists depth', pdc, rinfo, rcols, before, after.
  split; [reflexivity|]. split; [exact Hpdc|]. split; [exact Hrec|].
  split.
  - rewrite Ha, Hb. now rewrite <- !app_assoc.
  - intros Huniq.
    apply (constraints_loop_final_entry orm _ fk_previews path existing _
             cc rc pdc rinfo rcols (foreign_keys orm pk) Hpdc Hrec Huniq
             _ _ H).
    left. now exists fk.
Qed.

(** A leaf of the referent table is not a key of the nested preview
    info, under any spelling of the keys. *)
Lemma leaf_of_keys orm depth fk_previews pk restrict path existing rinfo rcols i :
  get_preview_info orm depth fk_previews pk restrict path existing
  = Ok (rinfo, rcols) ->
  leaf_of orm pk i ->
  forall k, In k (dict_keys rinfo) -> exists z, k = KInt z /\ PyStr.of_int z <> i.
Proof.
  intros H Hleaf k Hk.
  destruct (get_preview_info_keys _ _ _ _ _ _ _ _ _ H k Hk)
    as (fk & c & Hin & Hc & ->).
  exists (id c). split; [reflexivity|]. exact (Hleaf fk c Hin Hc).
Qed.

Lemma leaf_of_leaf_ids orm depth fk_previews pk restrict path existing rinfo
    rcols i ids :
  get_preview_info orm depth fk_previews pk restrict path existing
  = Ok (rinfo, rcols) ->
  leaf_of orm pk i ->
  In i ids ->
  In i (leaf_ids rinfo ids).
Proof.
  intros H Hleaf Hi. unfold leaf_ids. apply filter_In. split; [exact Hi|].
  apply negb_true_iff. apply dict_contains_int_keys. apply int_keys_forallb.
  intros k Hk.
  destruct (leaf_of_keys _ _ _ _ _ _ _ _ _ _ H Hleaf k Hk) as (z & -> & _).
  now exists z.
Qed.


(** The filters of a call: the flag filter in ['auto'] mode, then the
    restriction filter when a non-empty restriction is given. *)
Lemma filters_eq orm fk_previews pk restrict :
  filters orm fk_previews pk restrict
  = (if String.eqb fk_previews "auto" then [_filter_preview_enabled_columns]
     else [])
    ++ match restrict with
       | Some (c :: cs) => [_get_filter_restricted_columns_fn (c :: cs)]
       | _ => []
       end.
Proof.
  unfold filters, select_fk_constraints.
  destruct (String.eqb fk_previews "auto"); destruct restrict as [[|c cs]|];
    reflexivity.
Qed.

Lemma constraints_loop_returns orm rec fk_previews preds path existing cs :
  (forall fk, In fk cs -> exists b, passes preds fk = Ok b) ->
  (forall fk st,
      In fk cs ->
      exists st', constraint_step orm rec fk_previews path existing st fk = Ok st') ->
  forall st,
    exists st',
      constraints_loop orm rec fk_previews preds path existing cs st = Ok st'.
Proof.
  induction cs as [|fk cs IH]; intros Hp Hs st; simpl; [now exists st|].
  destruct (Hp fk (or_introl eq_refl)) as [b ->]. simpl.
  assert (Hp' : forall fk', In fk' cs -> exists b', passes preds fk' = Ok b')
    by (intros fk' Hin; apply Hp; now right).
  assert (Hs' : forall fk' st0,
             In fk' cs ->
             exists st',
               constraint_step orm rec fk_previews path existing st0 fk' = Ok st')
    by (intros fk' st0 Hin; apply Hs; now right).
  destruct b; [|now apply IH].
  destruct (Hs fk st (or_introl eq_refl)) as [st1 ->]. simpl. now apply IH.
Qed.

(** On metadata without cycles the resolver returns as soon as the depth
    it is allowed exceeds the rank of the table. *)
Lemma get_preview_info_returns orm rank :
  well_founded_store orm rank ->
  forall depth pk fk_previews restrict path existing,
    rank pk < depth ->
    exists info cols,
      get_preview_info orm depth fk_previews pk restrict path existing
      = Ok (info, cols).
Proof.
  intros [Hcof Hfks].
  induction depth as [|depth IH];
    intros pk fk_previews restrict path existing Hrank; [lia|].
  assert (Hret : exists r,
             get_preview_info orm (S depth) fk_previews pk restrict path existing
             = Ok r).
  { cbn [get_preview_info].
    unfold get_preview_info_body, get_constrained_columns_by_referent_table.
    rewrite select_fk_constraints_source.
    apply constraints_loop_returns.
    - intros fk Hin.
      destruct (Hfks pk fk Hin) as (cc & rc & flag & Hcc & _ & Hflag & _).
      fold (filters orm fk_previews pk restrict). rewrite filters_eq.
      destruct (String.eqb fk_previews "auto"); destruct restrict as [[|x xs]|];
        cbn [app passes];
        unfold _filter_preview_enabled_columns, _get_filter_restricted_columns_fn;
        rewrite ?Hcc; cbn [rbind]; rewrite ?Hflag; cbn [rbind];
        try destruct flag; cbn [rbind];
        try match goal with
            | |- context [existsb ?f ?l] => destruct (existsb f l)
            end;
        eauto.
    - intros fk [info cols] Hin.
      destruct (Hfks pk fk Hin) as (cc & rc & flag & Hcc & Hrc & _ & Hlt).
      destruct (Hcof (PyStr.findall_braces (template (table rc)))) as [pdc Hpdc].
      destruct (IH (table_id (table rc)) fk_previews (Some pdc)
                  (path ++ [(id cc, id rc)]) existing ltac:(lia))
        as (rinfo & rcols & Hrec).
      eexists.
      exact (constraint_step_ok orm _ _ _ _ _ fk cc rc pdc rinfo rcols
               Hcc Hrc Hpdc Hrec). }
  destruct Hret as [[info cols] H]. now exists info, cols.
Qed.

(** ** Display flags and restrictions, read from the metadata *)

Lemma getitem_find (d : list (string * bool)) (key : string) :
  getitem d key
  = match List.find (fun kv => String.eqb (fst kv) key) d with
    | Some kv => Ok (snd kv)
    | None => Raise KeyError
    end.
Proof.
  induction d as [|[k v] d IH]; simpl; [reflexivity|].
  destruct (String.eqb k key); [reflexivity | exact IH].
Qed.

(** What the flag filter returns, from the flag of the constraint. *)
Lemma filter_flag_of (fk : Constraint) (cc : Column) :
  first (columns fk) = Ok cc ->
  _filter_preview_enabled_columns fk
  = match flag_of fk with
    | Some b => Ok b
    | None => Raise KeyError
    end.
Proof.
  unfold _filter_preview_enabled_columns, flag_of.
  destruct (columns fk) as [|c cs]; [discriminate|].
  intros H. injection H as <-. cbn [first rbind].
  rewrite getitem_find.
  destruct (List.find _ (display_options c)) as [kv|]; reflexivity.
Qed.


(** A foreign key that a call follows survives the filters of the call. *)
Lemma followed_survives orm fk_previews pk restrict fk cc :
  first (columns fk) = Ok cc ->
  followed fk_previews restrict fk ->
  survives (filters orm fk_previews pk restrict) fk = true.
Proof.
  intros Hcc [Hflag Hlet]. specialize (Hlet cc Hcc).
  apply survives_passes. rewrite filters_eq.
  assert (Hr : passes
                 match restrict with
                 | Some (c :: cs) => [_get_filter_restricted_columns_fn (c :: cs)]
                 | _ => []
                 end fk = Ok true).
  { destruct restrict as [[|c cs]|]; try reflexivity.
    cbn [passes]. unfold _get_filter_restricted_columns_fn.
    rewrite Hcc. cbn [rbind]. unfold lets_through in Hlet. now rewrite Hlet. }
  destruct (String.eqb_spec fk_previews "auto") as [Hauto|_].
  - cbn [app passes]. rewrite (filter_flag_of fk cc Hcc), (Hflag Hauto).
    cbn [rbind]. exact Hr.
  - exact Hr.
Qed.


(** ** Previews in ['auto'] mode *)












(** ** No deduplication *)




(** ** Leaf placeholders *)

(** C7.  In a call that returns, take a foreign key that the call
    follows.  Its turn looked up the columns of the placeholder ids of
    the referent table's template and made the recursive call on the
    referent table with the current path, the path of the call followed
    by the hop of the foreign key.  Every placeholder id that is not a
    key of the preview info returned by that recursive call is a leaf;
    every id that no foreign key of the referent table has as its
    constrained column is one.  The alias of a leaf is the text of the
    hops of the current path, each written [constrained__referent], in
    path order and separated by [___], followed by [__col__] and the id.
    From any state, the turn stores for the constrained column the
    referent table's template, after the nested templates were put in,
    with the placeholder of every leaf replaced, in order, by the
    placeholder of its alias, and it appends to the columns those of the
    recursive call and then the descriptors made of the id, the alias and
    the current path of the leaves.  These descriptors are in the column
    list that the call returns, in order and next to each other, and the
    template is the one the call returns for the constrained column when
    no other foreign key of that column refers elsewhere.  On metadata
    without cycles of foreign keys the call returns as soon as the depth
    it is allowed exceeds the rank of the table. *)
Theorem leaf_placeholders_rewritten (orm : ORM) :
  (forall depth fk_previews pk restrict path existing info cols fk cc rc,
      get_preview_info orm depth fk_previews pk restrict path existing
      = Ok (info, cols) ->
      In fk (foreign_keys orm pk) ->
      followed fk_previews restrict fk ->
      first (columns fk) = Ok cc ->
      first (referent_columns fk) = Ok rc ->
      exists depth' pdc rinfo rcols leaves,
        depth = S depth'
        /\ Column_objects_filter orm
             (PyStr.findall_braces (template (table rc))) = Ok pdc
        /\ get_preview_info orm depth' fk_previews (table_id (table rc))
             (Some pdc) (path ++ [(id cc, id rc)]) existing = Ok (rinfo, rcols)
        /\ leaves
           = List.filter (fun i => negb (dict_contains rinfo (KStr i)))
               (PyStr.findall_braces (template (table rc)))
        /\ (forall i,
              In i (PyStr.findall_braces (template (table rc))) ->
              leaf_of orm (table_id (table rc)) i ->
              In i leaves)
        /\ let current_path := path ++ [(id cc, id rc)] in
           let entry :=
             {| entry_template :=
                  fold_left
                    (fun t i =>
                       PyStr.replace t (placeholder i)
                         (placeholder (alias_text current_path i)))
                    leaves (substitute_nested rinfo (template (table rc)));
                entry_path := current_path |} in
           let descriptors :=
             List.map
               (fun i =>
                  {| ic_id := i;
                     ic_alias := alias_text current_path i;
                     ic_jp_path := current_path |})
               leaves in
           (forall st,
               constraint_step orm (get_preview_info orm depth') fk_previews
                 path existing st fk
               = Ok (dict_set (fst st) (KInt (id cc)) entry,
                     snd st ++ rcols ++ descriptors))
           /\ (exists before after, cols = before ++ descriptors ++ after)
           /\ (refers_to orm pk cc rc ->
               dict_get info (KInt (id cc)) = Some entry))
  /\ (forall rank depth fk_previews pk restrict path existing,
        well_founded_store orm rank ->
        rank pk < depth ->
        exists info cols,
          get_preview_info orm depth fk_previews pk restrict path existing
          = Ok (info, cols)).
Proof.
  split.
  - intros depth fk_previews pk restrict path existing info cols fk cc rc
           H Hin Hf Hcc Hrc.
    pose proof (followed_survives orm fk_previews pk restrict fk cc Hcc Hf)
      as Hs.
    destruct (get_preview_info_turn _ _ _ _ _ _ _ _ _ _ _ _ H Hin Hs Hcc Hrc)
      as (depth' & pdc & rinfo & rcols & before & after
          & Hd & Hpdc & Hrec & Hcols & Hentry).
    exists depth', pdc, rinfo, rcols,
      (leaf_ids rinfo (PyStr.findall_braces (template (table rc)))).
    split; [exact Hd|]. split; [exact Hpdc|]. split; [exact Hrec|].
    split; [reflexivity|]. split.
    { intros i Hi Hleaf.
      exact (leaf_of_leaf_ids _ _ _ _ _ _ _ _ _ _ _ Hrec Hleaf Hi). }
    cbv zeta. split; [|split].
    + intros st.
      rewrite (constraint_step_ok orm _ fk_previews path existing st fk cc rc
                 pdc rinfo rcols Hcc Hrc Hpdc Hrec).
      unfold step_result.
      rewrite fold_rewrite_leaf_text, map_descriptor_text. reflexivity.
    + exists (existing ++ before ++ rcols), after.
      rewrite Hcols, map_descriptor_text. now rewrite <- !app_assoc.
    + intros Huniq. rewrite (Hentry Huniq). unfold step_entry.
      rewrite fold_rewrite_leaf_text. reflexivity.
  - intros rank depth fk_previews pk restrict path existing Hwf Hrank.
    exact (get_preview_info_returns orm rank Hwf depth pk fk_previews restrict
             path existing Hrank).
Qed.

Lemma leaf_placeholders_rewritten_witness :
  exists info cols,
    get_preview_info preview_examples.store 3 "auto" 2 None [(10, 21)%Z] []
    = Ok (info, cols)
    /\ dict_get info (KInt 20)
       = Some {| entry_template := "{10__21___20__31__col__30}";
                 entry_path := [(10, 21)%Z; (20, 31)%Z] |}
    /\ exists before after,
        cols
        = before
          ++ [ {| ic_id := "30";
                  ic_alias := "10__21___20__31__col__30";
                  ic_jp_path := [(10, 21)%Z; (20, 31)%Z] |} ]
          ++ after.
Proof.
  eexists _, _. split; [vm_compute; reflexivity|].
  destruct (proj1 (leaf_placeholders_rewritten preview_examples.store)
              3 "auto"%string 2%Z None [(10, 21)%Z] []
              [(KInt 20,
                mkPreviewEntry "{10__21___20__31__col__30}"
                  [(10, 21)%Z; (20, 31)%Z])]
              [mkInitialColumnDict "30" "10__21___20__31__col__30"
                 [(10, 21)%Z; (20, 31)%Z]]
              preview_examples.fk_customers_city
              preview_examples.customers_city preview_examples.cities_id)
    as (depth' & pdc & rinfo & rcols & leaves
        & Hd & Hpdc & Hrec & Hleaves & _ & _ & Hcols & Hget).
  - vm_compute. reflexivity.
  - vm_compute. now left.
  - split; [reflexivity | intros cc _; reflexivity].
  - reflexivity.
  - reflexivity.
  - injection Hd as <-.
    vm_compute in Hpdc. injection Hpdc as <-.
    vm_compute in Hrec. injection Hrec as <- <-.
    vm_compute in Hleaves. subst leaves.
    split; [|exact Hcols].
    apply Hget.
    intros fk c Hin Hc Hid. vm_compute in Hin.
    destruct Hin as [<-|[]]. reflexivity.
Defined.

(** ** Nested previews *)




End preview_facts.

(** * Further properties of the relation builder *)

Module base_extra.

Import SA base base_spec base_facts base_more.
Local Open Scope sa_scope.

(** ** Constructors *)

Lemma check_jp_path_ok (path : list pyobj) :
  forallb is_join_params path = true ->
  exists jps, check_jp_path path = Ok jps /\ path = List.map PyJoinParams jps.
Proof.
  induction path as [|o path IH]; simpl; intros H.
  - now exists [].
  - apply andb_prop in H as [Ho Hp].
    destruct o; try discriminate.
    destruct (IH Hp) as (jps & -> & ->). simpl.
    now exists (jp :: jps).
Qed.

Lemma check_jp_path_raise (path : list pyobj) :
  forallb is_join_params path = false ->
  check_jp_path path = Raise AssertionError.
Proof.
  induction path as [|o path IH]; simpl; intros H; [discriminate|].
  destruct o; try reflexivity.
  simpl in H. now rewrite (IH H).
Qed.

(** X1.  [InitialColumn.__init__] returns exactly when the alias is a string
    that is not blank, every entry of the path (if one is given) is a
    [JoinParams], and the column is a column; the object then holds the
    three arguments as given.  In every other case the constructor raises
    [AssertionError]. *)
Theorem InitialColumn_init_outcome (alias column : pyobj)
    (jp_path : option (list pyobj)) :
  (acceptable_alias alias && acceptable_path jp_path && is_sa_column column = true ->
   exists ic,
     InitialColumn_init alias column jp_path = Ok ic
     /\ alias = PyString (base.alias ic)
     /\ column = PySAColumn (base.column ic)
     /\ jp_path = option_map (List.map PyJoinParams) (base.jp_path ic))
  /\ (acceptable_alias alias && acceptable_path jp_path && is_sa_column column = false ->
      InitialColumn_init alias column jp_path = Raise AssertionError).
Proof.
  split; intros H.
  - apply andb_prop in H as [H Hc]. apply andb_prop in H as [Ha Hp].
    destruct alias; try discriminate. destruct column; try discriminate.
    simpl in Ha. apply negb_true_iff in Ha.
    unfold InitialColumn_init. rewrite Ha.
    destruct jp_path as [path|]; simpl in *.
    + destruct (check_jp_path_ok path Hp) as (jps & -> & ->). simpl.
      eexists. repeat split.
    + eexists. repeat split.
  - unfold InitialColumn_init.
    destruct alias; try reflexivity. simpl in H.
    destruct (String.eqb (PyStr.strip s) ""); [reflexivity|]. simpl in H.
    destruct jp_path as [path|]; simpl in *.
    + destruct (forallb is_join_params path) eqn:Hp; simpl in H.
      * destruct (check_jp_path_ok path Hp) as (jps & -> & _). simpl.
        destruct column; try reflexivity. discriminate.
      * now rewrite (check_jp_path_raise path Hp).
    + destruct column; try reflexivity. discriminate.
Qed.

Lemma InitialColumn_init_outcome_witness :
  (exists ic,
      InitialColumn_init (PyString "cust_name")
        (PySAColumn base_examples.customers_name)
        (Some [PyJoinParams base_examples.to_customers]) = Ok ic
      /\ PyString "cust_name" = PyString (base.alias ic)
      /\ PySAColumn base_examples.customers_name = PySAColumn (base.column ic)
      /\ Some [PyJoinParams base_examples.to_customers]
         = option_map (List.map PyJoinParams) (base.jp_path ic))
  /\ InitialColumn_init (PyString "  ") (PySAColumn base_examples.customers_name)
       None = Raise AssertionError.
Proof.
  split.
  - apply (proj1 (InitialColumn_init_outcome (PyString "cust_name")
                    (PySAColumn base_examples.customers_name)
                    (Some [PyJoinParams base_examples.to_customers]))).
    reflexivity.
  - apply (proj2 (InitialColumn_init_outcome (PyString "  ")
                    (PySAColumn base_examples.customers_name) None)).
    reflexivity.
Defined.

Lemma check_initial_columns_ok (cols : list pyobj) :
  forallb is_initial_column cols = true ->
  exists ics,
    check_initial_columns cols = Ok ics /\ cols = List.map PyInitialColumn ics.
Proof.
  induction cols as [|o cols IH]; simpl; intros H.
  - now exists [].
  - apply andb_prop in H as [Ho Hp].
    destruct o; try discriminate.
    destruct (IH Hp) as (ics & -> & ->). simpl.
    now exists (ic :: ics).
Qed.

Lemma check_initial_columns_raise (cols : list pyobj) :
  forallb is_initial_column cols = false ->
  check_initial_columns cols = Raise AssertionError.
Proof.
  induction cols as [|o cols IH]; simpl; intros H; [discriminate|].
  destruct o; try reflexivity.
  simpl in H. now rewrite (IH H).
Qed.

(** X2.  [DBQuery.__init__] returns exactly when the base table is a table and
    every initial column is an [InitialColumn]; the query then holds the
    initial columns in the order given, and the transformations and the
    name unchecked.  Otherwise it raises [AssertionError]. *)
Theorem DBQuery_init_outcome (base_table : pyobj) (initial_columns : list pyobj)
    (transformations : option (list Transformation)) (name : option string) :
  (is_sa_table base_table && forallb is_initial_column initial_columns = true ->
   exists q,
     DBQuery_init base_table initial_columns transformations name = Ok q
     /\ base_table = PySATable (base.base_table q)
     /\ initial_columns = List.map PyInitialColumn (base.initial_columns q)
     /\ List.length (base.initial_columns q) = List.length initial_columns
     /\ query_name q = name)
  /\ (is_sa_table base_table && forallb is_initial_column initial_columns = false ->
      DBQuery_init base_table initial_columns transformations name
      = Raise AssertionError).
Proof.
  split; intros H.
  - apply andb_prop in H as [Ht Hc].
    destruct base_table; try discriminate.
    destruct (check_initial_columns_ok _ Hc) as (ics & Hics & ->).
    unfold DBQuery_init. rewrite Hics. simpl.
    eexists. repeat split. simpl. now rewrite length_map.
  - unfold DBQuery_init. destruct base_table; try reflexivity.
    simpl in H. now rewrite (check_initial_columns_raise _ H).
Qed.

Lemma DBQuery_init_outcome_witness :
  (exists q,
      DBQuery_init (PySATable base_examples.orders)
        [PyInitialColumn (mkInitialColumn "order" base_examples.orders_id None)]
        None None = Ok q
      /\ List.length (base.initial_columns q) = 1)
  /\ DBQuery_init (PySATable base_examples.orders)
       [PySAColumn base_examples.orders_id] None None = Raise AssertionError.
Proof.
  split.
  - destruct (proj1 (DBQuery_init_outcome (PySATable base_examples.orders)
                       [PyInitialColumn
                          (mkInitialColumn "order" base_examples.orders_id None)]
                       None None) eq_refl)
      as (q & Hq & _ & _ & Hlen & _).
    exists q. split; [exact Hq | exact Hlen].
  - apply (proj2 (DBQuery_init_outcome (PySATable base_examples.orders)
                    [PySAColumn base_examples.orders_id] None None)).
    reflexivity.
Defined.

(** X3.  [JoinParams.flip] returns the join parameters with the two columns
    exchanged: its left column is the right column given and its right
    column the left column given.  The two tables are exchanged with
    them, flipping twice gives the join parameters back, and flipping
    changes nothing exactly when the two columns are the same. *)
Theorem flip_exchanges_columns (jp : JoinParams) :
  left_column (flip jp) = right_column jp
  /\ right_column (flip jp) = left_column jp
  /\ left_table (flip jp) = right_table jp
  /\ right_table (flip jp) = left_table jp
  /\ flip (flip jp) = jp
  /\ (flip jp = jp <-> left_column jp = right_column jp).
Proof.
  destruct jp as [l r]. unfold flip, left_table, right_table; simpl.
  repeat split; intros H.
  - now injection H.
  - now rewrite H.
Qed.

(** ** When the build raises *)

(** X4.  Building returns a relation exactly when every initial column is a
    base column or a join column whose path has a last hop, where the
    name of that hop's right column is a column of the hop's right table
    or a name that the column collection defines itself, and the name of
    the target column is a column of that table and not a name the
    collection defines.  Otherwise it raises [AttributeError], in
    particular for a join path without any hop and for a target column
    named as a method of the collection.  A relation that is returned
    used one fresh identity per join column and one for itself. *)
Theorem build_outcome (attr : string -> bool) (q : DBQuery) (n : nat) :
  is_ok (sa_relation attr q n) = forallb (resolvable attr) (initial_columns q)
  /\ (forall e, sa_relation attr q n = Raise e -> e = AttributeError)
  /\ (forall r n',
        sa_relation attr q n = Ok (r, n') ->
        cte_id r = n + count_joins (initial_columns q) /\ n' = S (cte_id r)).
Proof.
  split; [|split].
  - destruct (forallb (resolvable attr) (initial_columns q)) eqn:Hall.
    + destruct (sa_relation_ok attr q n Hall) as (nj & ls & _ & -> & _).
      reflexivity.
    + now rewrite (sa_relation_raise attr q n Hall).
  - intros e. apply sa_relation_only_AttributeError.
  - intros r n' H.
    destruct (forallb (resolvable attr) (initial_columns q)) eqn:Hall.
    + destruct (sa_relation_ok attr q n Hall) as (nj & ls & _ & Hrel & _).
      rewrite Hrel in H. injection H as <- <-. split; reflexivity.
    + rewrite (sa_relation_raise attr q n Hall) in H. discriminate H.
Qed.

Lemma build_outcome_witness :
  sa_relation base_examples.collection_methods hopless_query 0
  = Raise AttributeError
  /\ sa_relation base_examples.collection_methods vault_items_query 0
     = Raise AttributeError
  /\ exists r,
      sa_relation base_examples.collection_methods mixed_query 5 = Ok (r, 8)
      /\ cte_id r = 7.
Proof.
  split; [|split].
  - destruct (sa_relation base_examples.collection_methods hopless_query 0)
      as [[r n']|e] eqn:H.
    + discriminate H.
    + f_equal.
      exact (proj1 (proj2 (build_outcome base_examples.collection_methods
                             hopless_query 0)) e H).
  - destruct (sa_relation base_examples.collection_methods vault_items_query 0)
      as [[r n']|e] eqn:H.
    + discriminate H.
    + f_equal.
      exact (proj1 (proj2 (build_outcome base_examples.collection_methods
                             vault_items_query 0)) e H).
  - destruct (sa_relation base_examples.collection_methods mixed_query 5)
      as [[r n']|e] eqn:H; [|discriminate H].
    destruct (proj2 (proj2 (build_outcome base_examples.collection_methods
                              mixed_query 5)) r n' H) as [Hid Hn].
    exists r. rewrite Hn, Hid. split; reflexivity.
Defined.

(** ** The shape of the joins *)

Lemma join_leaves_outer rest :
  forall j,
    join_leaves (fold_left outer_join rest j)
    = List.map (fun h => FromTable (left_table h)) (rev rest) ++ join_leaves j.
Proof.
  induction rest as [|x rest IH]; intros j; simpl; [reflexivity|].
  rewrite IH, map_app, <- app_assoc. reflexivity.
Qed.

Lemma onclauses_outer rest :
  forall j,
    onclauses (fold_left outer_join rest j)
    = List.map hop_condition (rev rest) ++ onclauses j.
Proof.
  induction rest as [|x rest IH]; intros j; simpl; [reflexivity|].
  rewrite IH, map_app, <- app_assoc. reflexivity.
Qed.

Lemma rev_cons_inv {A} (p : list A) x rest :
  rev p = x :: rest -> p = rev rest ++ [x].
Proof.
  intros H. rewrite <- (rev_involutive p), H. reflexivity.
Qed.

Lemma join_leaves_path_join attr a p jp rest :
  rev p = jp :: rest ->
  join_leaves (path_join attr a jp rest)
  = List.map (fun h => FromTable (left_table h)) p ++ [FromAlias a].
Proof.
  intros Hrev. unfold path_join.
  rewrite join_leaves_outer, (rev_cons_inv p jp rest Hrev), map_app, <- app_assoc.
  reflexivity.
Qed.

(** X5.  Nesting the joins of a resolvable join column does not look at the
    join accumulated so far.  It joins, from left to right, the left
    tables of the hops in path order and then a fresh alias of the last
    hop's right table; the right tables of the earlier hops are not joined
    themselves.  The conditions are those of the hops in path order; the
    last one compares the hop's left column with the hop's right column
    on the alias, or with a bound parameter when the right column is
    named as an attribute of the column collection.  The column selected
    is the target column's name on the alias. *)
Theorem nest_a_join_shape (attr : string -> bool)
    (nested_join : option FromClause) (ic : InitialColumn)
    (p : list JoinParams) (n : nat) :
  jp_path ic = Some p ->
  resolvable attr ic = true ->
  exists front jp j,
    p = front ++ [jp]
    /\ _nest_a_join attr nested_join ic n
       = Ok ((Some j,
              Expression (OfAlias (mkAlias (right_table jp) n) (name (column ic)))),
             S n)
    /\ join_leaves j
       = List.map (fun h => FromTable (left_table h)) p
         ++ [FromAlias (mkAlias (right_table jp) n)]
    /\ onclauses j
       = List.map hop_condition front
         ++ [last_hop_condition attr (mkAlias (right_table jp) n) jp].
Proof.
  intros Hp Hres. unfold resolvable in Hres; rewrite Hp in Hres.
  destruct (rev p) as [|jp rest] eqn:Hrev; [discriminate|].
  apply andb_prop in Hres as [Hres Hc]. apply andb_prop in Hres as [Hr Ha].
  apply negb_true_iff in Ha.
  exists (rev rest), jp.
  eexists. split; [now apply rev_cons_inv|].
  split.
  - rewrite (nest_a_join_outcome attr ic p jp rest nested_join n Hp Hrev).
    rewrite Hr, Ha, Hc. reflexivity.
  - split; [now apply join_leaves_path_join|].
    unfold path_join. rewrite onclauses_outer. reflexivity.
Qed.

Lemma nest_a_join_shape_witness :
  (exists front jp j,
      [mkJoinParams base_examples.orders_id (mkColumn "id" base_examples.products);
       base_examples.to_suppliers] = front ++ [jp]
      /\ _nest_a_join base_examples.collection_methods
           (Some (FromTable base_examples.customers))
           (mkInitialColumn "supplier" (mkColumn "name" base_examples.suppliers)
              (Some [mkJoinParams base_examples.orders_id
                       (mkColumn "id" base_examples.products);
                     base_examples.to_suppliers])) 3
         = Ok ((Some j,
                Expression (OfAlias (mkAlias (right_table jp) 3) "name")), 4)
      /\ join_leaves j
         = [FromTable base_examples.orders; FromTable base_examples.products;
            FromAlias (mkAlias (right_table jp) 3)]
      /\ onclauses j
         = List.map hop_condition front
           ++ [last_hop_condition base_examples.collection_methods
                 (mkAlias (right_table jp) 3) jp])
  /\ (exists j,
         _nest_a_join base_examples.collection_methods None vault_owner 0
         = Ok ((Some j,
                Expression (OfAlias (mkAlias base_examples.vaults 0) "owner")),
               1)
         /\ join_leaves j
            = [FromTable base_examples.orders;
               FromAlias (mkAlias base_examples.vaults 0)]
         /\ onclauses j
            = [ {| eq_left := OfTable base_examples.orders_id;
                   eq_right := BindParameter (mkAlias base_examples.vaults 0)
                                 "keys" |} ]).
Proof.
  split.
  - apply (nest_a_join_shape base_examples.collection_methods
             (Some (FromTable base_examples.customers))
             (mkInitialColumn "supplier" (mkColumn "name" base_examples.suppliers)
                (Some [mkJoinParams base_examples.orders_id
                         (mkColumn "id" base_examples.products);
                       base_examples.to_suppliers]))
             _ 3 eq_refl eq_refl).
  - destruct (nest_a_join_shape base_examples.collection_methods None vault_owner
                _ 0 eq_refl eq_refl)
      as (front & jp & j & Hp & Hcall & Hleaves & Hon).
    apply (app_inj_tail [] front) in Hp as [<- <-].
    exists j. split; [exact Hcall|]. split; [exact Hleaves | exact Hon].
Defined.

(** X6.  Joins do not accumulate from one initial column to the next: the
    statement is given, as its [select_from] target, the joins nested
    for the last join column of the list alone, whatever join columns
    come before it, whose only trace there is the number of fresh
    identities they used.  The aliases that the earlier join columns are
    selected on are not among the tables and aliases that the target
    joins. *)
Theorem select_target_of_last_join (attr : string -> bool) (q : DBQuery)
    (n : nat) (pre post : list InitialColumn) (ic : InitialColumn)
    (p rest : list JoinParams) (jp : JoinParams) :
  initial_columns q = pre ++ ic :: post ->
  forallb (resolvable attr) (initial_columns q) = true ->
  jp_path ic = Some p ->
  rev p = jp :: rest ->
  Forall (fun c => is_base_column c = true) post ->
  exists r n',
    sa_relation attr q n = Ok (r, n')
    /\ from_obj (cte_element r)
       = fold_left outer_join rest
           (Join (FromTable (left_table jp))
              (FromAlias (mkAlias (right_table jp) (n + count_joins pre)))
              (last_hop_condition attr
                 (mkAlias (right_table jp) (n + count_joins pre)) jp))
    /\ join_leaves (from_obj (cte_element r))
       = List.map (fun h => FromTable (left_table h)) p
         ++ [FromAlias (mkAlias (right_table jp) (n + count_joins pre))]
    /\ (forall k l a c,
          k < List.length pre ->
          nth_error (columns_clause (cte_element r)) k = Some l ->
          label_element l = OfAlias a c ->
          ~ In (FromAlias a) (join_leaves (from_obj (cte_element r)))).
Proof.
  intros Hcols Hall Hp Hrev Hpost.
  rewrite Hcols in Hall.
  destruct (initial_columns_loop_last_join attr pre ic post p jp rest n
              Hall Hp Hrev Hpost) as (ls1 & Hlen & Hsel1 & Hloop).
  eexists _, _.
  rewrite sa_relation_unfold, Hcols, Hloop.
  split; [reflexivity|]. cbn [cte_element from_obj columns_clause].
  split; [reflexivity|].
  assert (Hleaves : join_leaves
                      (path_join attr
                         (mkAlias (right_table jp) (n + count_joins pre)) jp rest)
                    = List.map (fun h => FromTable (left_table h)) p
                      ++ [FromAlias (mkAlias (right_table jp) (n + count_joins pre))])
    by now apply join_leaves_path_join.
  split; [exact Hleaves|].
  intros k l a c Hk Hl Hel Hin.
  rewrite Hleaves in Hin.
  rewrite nth_error_app1 in Hl by lia.
  destruct (nth_error pre k) as [ick|] eqn:Hick;
    [|apply nth_error_None in Hick; lia].
  destruct (selects_for_alias _ _ _ _ _ (proj2 Hsel1 k ick l Hick Hl) Hel)
    as [Hb Hid].
  apply in_app_or in Hin as [Hin|[Hin|[]]].
  - apply in_map_iff in Hin as (h & Hh & _). discriminate Hh.
  - injection Hin as Ha. rewrite <- Ha in Hid. simpl in Hid.
    assert (Hlt : count_joins (firstn k pre) < count_joins pre).
    { rewrite <- (firstn_skipn k pre) at 2. rewrite count_joins_app.
      destruct (skipn k pre) as [|x tl] eqn:Hsk.
      - pose proof (f_equal (@List.length _) Hsk) as Hl0.
        rewrite length_skipn in Hl0. simpl in Hl0. lia.
      - assert (x = ick).
        { pose proof (nth_error_skipn k pre 0) as Hn.
          rewrite Hsk, Nat.add_0_r in Hn. simpl in Hn. congruence. }
        subst x. rewrite count_joins_cons, Hb. lia. }
    lia.
Qed.

Lemma select_target_of_last_join_witness :
  exists r n',
    sa_relation base_examples.collection_methods mixed_query 5 = Ok (r, n')
    /\ join_leaves (from_obj (cte_element r))
       = [FromTable base_examples.orders; FromTable base_examples.products;
          FromAlias (mkAlias base_examples.suppliers 6)]
    /\ nth_error (columns_clause (cte_element r)) 0
       = Some {| label_element := OfAlias (mkAlias base_examples.customers 5) "name";
                 label_name := "cust_name" |}
    /\ ~ In (FromAlias (mkAlias base_examples.customers 5))
           (join_leaves (from_obj (cte_element r))).
Proof.
  assert (Hpost : Forall (fun c => is_base_column c = true)
                    [mkInitialColumn "order" base_examples.orders_id None])
    by (repeat constructor).
  destruct (select_target_of_last_join base_examples.collection_methods
              mixed_query 5
              [mkInitialColumn "cust_name" base_examples.customers_name
                 (Some [base_examples.to_customers])]
              [mkInitialColumn "order" base_examples.orders_id None]
              (mkInitialColumn "supplier" (mkColumn "name" base_examples.suppliers)
                 (Some [mkJoinParams base_examples.orders_id
                          (mkColumn "id" base_examples.products);
                        base_examples.to_suppliers]))
              _ _ _ eq_refl eq_refl eq_refl eq_refl Hpost)
    as (r & n' & Hrel & _ & Hleaves & Hearlier).
  exists r, n'. split; [exact Hrel|]. split; [exact Hleaves|].
  assert (Hfirst : nth_error (columns_clause (cte_element r)) 0
                   = Some {| label_element :=
                               OfAlias (mkAlias base_examples.customers 5) "name";
                             label_name := "cust_name" |}).
  { vm_compute in Hrel. injection Hrel as <- _. reflexivity. }
  split; [exact Hfirst|].
  apply (Hearlier 0 _ _ "name"%string (Nat.lt_0_succ 0) Hfirst eq_refl).
Defined.

(** ** Output columns *)

(** X7.  Reading the output columns of a query has three outcomes.  When
    some initial column is not resolvable, it raises [AttributeError] as
    the build does.  When every initial column is resolvable and two of
    them have the same alias, it raises [InvalidRequestError], although
    the relation itself is built.  When every initial column is
    resolvable and the aliases are pairwise different, it returns the
    enriched columns of the select list: one per initial column, in the
    order of the input list, the label name of each being the alias of
    its initial column, for base and join columns alike. *)
Theorem output_columns_outcome {MathesarColumn : Type} (attr : string -> bool)
    (from_column : Label -> MathesarColumn) (q : DBQuery) (n : nat) :
  (forallb (resolvable attr) (initial_columns q) = false ->
   sa_output_columns attr from_column q n = Raise AttributeError)
  /\ (forallb (resolvable attr) (initial_columns q) = true ->
      ~ NoDup (List.map alias (initial_columns q)) ->
      sa_output_columns attr from_column q n = Raise InvalidRequestError
      /\ is_ok (sa_relation attr q n) = true)
  /\ (forallb (resolvable attr) (initial_columns q) = true ->
      NoDup (List.map alias (initial_columns q)) ->
      exists r n',
        sa_relation attr q n = Ok (r, n')
        /\ sa_output_columns attr from_column q n
           = Ok (List.map from_column (columns_clause (cte_element r)), n')
        /\ List.map label_name (columns_clause (cte_element r))
           = List.map alias (initial_columns q)
        /\ List.length (columns_clause (cte_element r))
           = List.length (initial_columns q)).
Proof.
  split; [|split].
  - intros Hall. rewrite sa_output_columns_unfold.
    now rewrite (sa_relation_raise attr q n Hall).
  - intros Hall Hdup.
    destruct (sa_relation_ok attr q n Hall) as (nj & ls & _ & Hrel & Hsel).
    rewrite sa_output_columns_unfold, Hrel. split; [|reflexivity].
    pose proof (selects_all_names _ _ _ Hsel) as Hnames.
    rewrite (proj2 (columns_outcome _)); [reflexivity|].
    cbn [cte_element columns_clause]. now rewrite Hnames.
  - intros Hall Hnd.
    destruct (sa_relation_ok attr q n Hall) as (nj & ls & _ & Hrel & Hsel).
    pose proof (selects_all_names _ _ _ Hsel) as Hnames.
    eexists _, _. split; [exact Hrel|].
    rewrite sa_output_columns_unfold, Hrel.
    rewrite (proj1 (columns_outcome _));
      [|cbn [cte_element columns_clause]; now rewrite Hnames].
    cbn [cte_element columns_clause].
    split; [reflexivity|]. split; [exact Hnames | exact (proj1 Hsel)].
Qed.

Lemma output_columns_outcome_witness :
  sa_output_columns base_examples.collection_methods label_name hopless_query 0
  = Raise AttributeError
  /\ sa_output_columns base_examples.collection_methods label_name
       same_alias_join_query 0
     = Raise InvalidRequestError
  /\ sa_output_columns base_examples.collection_methods label_name mixed_query 0
     = Ok (["cust_name"; "supplier"; "order"]%string, 3).
Proof.
  split; [|split].
  - apply (proj1 (output_columns_outcome base_examples.collection_methods
                    label_name hopless_query 0)).
    reflexivity.
  - apply (proj1 (proj2 (output_columns_outcome base_examples.collection_methods
                           label_name same_alias_join_query 0)));
      [reflexivity|].
    intros Hnd. apply repeats_false_NoDup in Hnd. discriminate Hnd.
  - destruct (proj2 (proj2 (output_columns_outcome
                              base_examples.collection_methods
                              label_name mixed_query 0)))
      as (r & n' & Hrel & Hout & _).
    + reflexivity.
    + apply repeats_false_NoDup. reflexivity.
    + rewrite Hout. vm_compute in Hrel. injection Hrel as <- <-. reflexivity.
Defined.

End base_extra.

(** * Further properties of the preview resolver *)

Module preview_extra.

Import preview preview_spec PyStr_spec PyStr_facts preview_facts preview_more.

(** ** Dictionaries *)

Lemma dict_set_In d k v k0 e0 :
  In (k0, e0) (dict_set d k v) -> In (k0, e0) d \/ (k0 = k /\ e0 = v).
Proof.
  induction d as [|[k' v'] d IH]; simpl.
  - intros [H|[]]. injection H as <- <-. now right.
  - destruct (pykey_eqb k' k) eqn:E; simpl.
    + intros [H|H].
      * injection H as <- <-. right. split; [now apply pykey_eqb_eq|reflexivity].
      * left. now right.
    + intros [H|H]; [left; now left|].
      destruct (IH H) as [Hin|Heq]; [left; now right | now right].
Qed.

Lemma dict_set_has_key d k v : In k (dict_keys (dict_set d k v)).
Proof.
  induction d as [|[k' v'] d IH]; simpl; [now left|].
  destruct (pykey_eqb k' k) eqn:E; simpl.
  - left. now apply pykey_eqb_eq.
  - now right.
Qed.

Lemma dict_set_keeps_keys d k v k0 :
  In k0 (dict_keys d) -> In k0 (dict_keys (dict_set d k v)).
Proof.
  induction d as [|[k' v'] d IH]; simpl; [tauto|].
  destruct (pykey_eqb k' k); simpl; intros [H|H]; auto.
Qed.

(** ** Filters *)

Lemma passes_app ps qs c :
  passes (ps ++ qs) c = Ok true ->
  passes ps c = Ok true /\ passes qs c = Ok true.
Proof.
  induction ps as [|p ps IH]; simpl; [now split|].
  destruct (p c) as [[|]|e]; simpl; try discriminate. exact IH.
Qed.

Lemma passes_one p c : passes [p] c = Ok true -> p c = Ok true.
Proof. simpl. destruct (p c) as [[|]|e]; simpl; congruence. Qed.

(** ** Running the loop *)

Section Loop.

Variable orm : ORM.
Variable rec :
  string -> Z -> option (list Column) -> Path -> list InitialColumnDict ->
  result (PreviewInfo * list InitialColumnDict).
Variable fk_previews : string.
Variable previous_path : Path.
Variable existing : list InitialColumnDict.
Variable preds : list (Constraint -> result bool).

Lemma constraints_loop_skip cs :
  forall st,
    (forall fk, In fk cs -> passes preds fk = Ok false) ->
    constraints_loop orm rec fk_previews preds previous_path existing cs st = Ok st.
Proof.
  induction cs as [|fk cs IH]; intros st H; simpl; [reflexivity|].
  rewrite (H fk (or_introl eq_refl)). simpl.
  apply IH. intros fk' Hin. apply H. now right.
Qed.

(** The loop at a surviving constraint: the state before its turn, its
    turn, and the loop over the constraints after it. *)
Lemma constraints_loop_split cs :
  forall st st' fk,
    constraints_loop orm rec fk_previews preds previous_path existing cs st
    = Ok st' ->
    In fk cs -> passes preds fk = Ok true ->
    exists st1 st2 after,
      constraint_step orm rec fk_previews previous_path existing st1 fk = Ok st2
      /\ constraints_loop orm rec fk_previews preds previous_path existing after st2
         = Ok st'.
Proof.
  induction cs as [|c cs IH]; intros st st' fk H Hin Hp; [destruct Hin|].
  simpl in H.
  destruct (passes preds c) as [[|]|e] eqn:Hpc; simpl in H; try discriminate.
  - destruct (constraint_step orm rec fk_previews previous_path existing st c)
      as [st1|e] eqn:Hs; simpl in H; try discriminate.
    destruct Hin as [->|Hin].
    + now exists st, st1, cs.
    + now apply (IH st1 st' fk H Hin Hp).
  - destruct Hin as [->|Hin]; [congruence|].
    now apply (IH st st' fk H Hin Hp).
Qed.

Lemma constraints_loop_keeps_keys cs st st' k :
  constraints_loop orm rec fk_previews preds previous_path existing cs st = Ok st' ->
  In k (dict_keys (fst st)) -> In k (dict_keys (fst st')).
Proof.
  intros H Hk.
  apply (constraints_loop_invariant orm rec fk_previews previous_path existing
           preds (fun s => In k (dict_keys (fst s))) cs) with (st := st);
    [|exact Hk|exact H].
  intros fk a b _ _ Ha Hs.
  apply constraint_step_inv in Hs as (cc & rc & pdc & rinfo & rcols & _ & _ & _ & _ & ->).
  simpl. now apply dict_set_keeps_keys.
Qed.

End Loop.

(** ** Nothing to resolve *)

(** X9.  When no foreign key of the table survives the filters, which is the
    case of a table without foreign keys, of ['auto'] mode when no
    constrained column is flagged, and of a restriction to columns that
    are not constrained, the resolver returns the empty preview info and
    the very list of columns it was given.  Without any depth left it
    raises [RecursionError] whatever the table. *)
Theorem nothing_survives orm depth fk_previews pk restrict path existing :
  ((forall fk,
       In fk (foreign_keys orm pk) ->
       passes (filters orm fk_previews pk restrict) fk = Ok false) ->
   get_preview_info orm (S depth) fk_previews pk restrict path existing
   = Ok ([], existing))
  /\ (foreign_keys orm pk = [] ->
      get_preview_info orm (S depth) fk_previews pk restrict path existing
      = Ok ([], existing))
  /\ get_preview_info orm 0 fk_previews pk restrict path existing
     = Raise RecursionError.
Proof.
  assert (Hgen : (forall fk,
                     In fk (foreign_keys orm pk) ->
                     passes (filters orm fk_previews pk restrict) fk = Ok false) ->
                 get_preview_info orm (S depth) fk_previews pk restrict path existing
                 = Ok ([], existing)).
  { intros H. cbn [get_preview_info].
    unfold get_preview_info_body, get_constrained_columns_by_referent_table.
    rewrite select_fk_constraints_source.
    now apply constraints_loop_skip. }
  split; [exact Hgen|]. split; [|reflexivity].
  intros Hnone. apply Hgen. rewrite Hnone. intros fk [].
Qed.

Lemma nothing_survives_witness :
  get_preview_info preview_examples.store 1 "explicit" 1
    (Some [preview_examples.customers_city]) []
    [preview_examples.city_name_of_customer]
  = Ok ([], [preview_examples.city_name_of_customer])
  /\ get_preview_info preview_examples.store 1 "auto" 3 None [] [] = Ok ([], []).
Proof.
  split.
  - apply (proj1 (nothing_survives preview_examples.store 0 "explicit" 1
                    (Some [preview_examples.customers_city]) []
                    [preview_examples.city_name_of_customer])).
    intros fk Hin. vm_compute in Hin.
    destruct Hin as [<-|[<-|[]]]; reflexivity.
  - apply (proj1 (proj2 (nothing_survives preview_examples.store 0 "auto" 3
                           None [] []))).
    reflexivity.
Defined.

(** ** The entries of the preview info *)

(** X10.  The preview info returned for a table has an entry exactly for the
    constrained columns of the foreign keys that survive the filters, in
    every mode.  The key of an entry is the id of such a column, and its
    path is the path passed in followed by the single hop from that column
    to a referent column of such a foreign key. *)
Theorem entries_are_surviving_foreign_keys orm depth fk_previews pk restrict path
    existing info cols :
  get_preview_info orm depth fk_previews pk restrict path existing
  = Ok (info, cols) ->
  (forall k e,
      In (k, e) info ->
      exists fk cc rc,
        In fk (foreign_keys orm pk)
        /\ passes (filters orm fk_previews pk restrict) fk = Ok true
        /\ first (columns fk) = Ok cc
        /\ first (referent_columns fk) = Ok rc
        /\ k = KInt (id cc)
        /\ entry_path e = path ++ [(id cc, id rc)])
  /\ (forall fk cc,
        In fk (foreign_keys orm pk) ->
        passes (filters orm fk_previews pk restrict) fk = Ok true ->
        first (columns fk) = Ok cc ->
        In (KInt (id cc)) (dict_keys info)).
Proof.
  intros H. apply get_preview_info_unfold in H as (depth' & _ & H).
  fold (filters orm fk_previews pk restrict) in H.
  split.
  - revert H.
    apply (constraints_loop_invariant orm (get_preview_info orm depth') fk_previews
             path existing (filters orm fk_previews pk restrict)
             (fun s => forall k e,
                  In (k, e) (fst s) ->
                  exists fk cc rc,
                    In fk (foreign_keys orm pk)
                    /\ passes (filters orm fk_previews pk restrict) fk = Ok true
                    /\ first (columns fk) = Ok cc
                    /\ first (referent_columns fk) = Ok rc
                    /\ k = KInt (id cc)
                    /\ entry_path e = path ++ [(id cc, id rc)])
             (foreign_keys orm pk)).
    + intros fk a b Hin Hp Ha Hs k e Hk.
      apply constraint_step_inv in Hs
        as (cc & rc & pdc & rinfo & rcols & Hcc & Hrc & _ & _ & ->).
      unfold step_result in Hk. cbn [fst] in Hk.
      apply dict_set_In in Hk as [Hk|[-> ->]]; [now apply Ha|].
      exists fk, cc, rc. repeat split; assumption.
    + intros k e [].
  - intros fk cc Hin Hp Hcc.
    destruct (constraints_loop_split _ _ _ _ _ _ _ _ _ _ H Hin Hp)
      as (st1 & st2 & after & Hstep & Hafter).
    apply (constraints_loop_keeps_keys _ _ _ _ _ _ _ _ _ _ Hafter).
    apply constraint_step_inv in Hstep
      as (cc' & rc & pdc & rinfo & rcols & Hcc' & _ & _ & _ & ->).
    rewrite Hcc in Hcc'. injection Hcc' as <-.
    unfold step_result. cbn [fst]. apply dict_set_has_key.
Qed.

Lemma entries_are_surviving_foreign_keys_witness :
  exists info cols,
    get_preview_info preview_examples.store 4 "all" 1 None [] [] = Ok (info, cols)
    /\ dict_keys info = [KInt 10; KInt 11]
    /\ (forall k e,
          In (k, e) info ->
          exists fk cc rc,
            In fk (foreign_keys preview_examples.store 1)
            /\ passes (filters preview_examples.store "all" 1 None) fk = Ok true
            /\ first (columns fk) = Ok cc
            /\ first (referent_columns fk) = Ok rc
            /\ k = KInt (id cc)
            /\ entry_path e = [] ++ [(id cc, id rc)]).
Proof.
  eexists _, _. split; [vm_compute; reflexivity|].
  split; [reflexivity|].
  eapply (fun H => proj1 (entries_are_surviving_foreign_keys
                            preview_examples.store 4 "all" 1 None [] [] _ _ H)).
  vm_compute. reflexivity.
Defined.

(** X11.  With a non-empty restriction, every entry of the returned preview
    info is keyed by the id of one of the restricting columns, in either
    mode. *)
Theorem restriction_bounds_entries orm depth fk_previews pk c cs path existing
    info cols :
  get_preview_info orm depth fk_previews pk (Some (c :: cs)) path existing
  = Ok (info, cols) ->
  forall k,
    In k (dict_keys info) ->
    exists col, In col (c :: cs) /\ k = KInt (id col).
Proof.
  intros H k Hk. apply get_preview_info_unfold in H as (depth' & _ & H).
  destruct (constraints_loop_keys _ _ _ _ _ _ _ _ _ H k Hk)
    as [[]|(fk & cc & _ & Hp & Hcc & ->)].
  fold (filters orm fk_previews pk (Some (c :: cs))) in Hp.
  rewrite filters_eq in Hp. apply passes_app in Hp as [_ Hp].
  apply passes_one in Hp. unfold _get_filter_restricted_columns_fn in Hp.
  rewrite Hcc in Hp. simpl in Hp. injection Hp as Hp.
  change (existsb (Column_eqb cc) (c :: cs) = true) in Hp.
  apply existsb_exists in Hp as (col & Hin & Heq).
  exists col. split; [exact Hin|].
  unfold Column_eqb in Heq. apply Z.eqb_eq in Heq. now rewrite Heq.
Qed.

Lemma restriction_bounds_entries_witness :
  exists info cols,
    get_preview_info preview_examples.store 4 "all" 1
      (Some [preview_examples.orders_note]) [] [] = Ok (info, cols)
    /\ forall k,
        In k (dict_keys info) ->
        exists col, In col [preview_examples.orders_note] /\ k = KInt (id col).
Proof.
  eexists _, _. split; [vm_compute; reflexivity|].
  eapply (restriction_bounds_entries preview_examples.store 4 "all" 1
            preview_examples.orders_note [] [] []).
  vm_compute. reflexivity.
Defined.

(** ** The descriptors that are added *)

Lemma made_below_step path hop d :
  made_below (path ++ [hop]) d -> made_below path d.
Proof.
  intros [(h & more & Hp) Ha]. split; [|exact Ha].
  exists hop, (h :: more). now rewrite Hp, <- app_assoc.
Qed.

(** X12.  Every descriptor of the returned list was passed in or was made
    below the path passed in: its path continues that path by at least
    one hop, and its alias is the one computed from its own path and id,
    so that among the descriptors added by a call two with the same id and
    path carry the same alias. *)
Theorem added_descriptors_made_below orm depth :
  forall fk_previews pk restrict path existing info cols,
    get_preview_info orm depth fk_previews pk restrict path existing
    = Ok (info, cols) ->
    forall d, In d cols -> In d existing \/ made_below path d.
Proof.
  induction depth as [|depth IH];
    intros fk_previews pk restrict path existing info cols H; [discriminate|].
  apply get_preview_info_unfold in H as (depth' & Hd & H).
  injection Hd as <-.
  change cols with (snd (info, cols)). revert H.
  apply (constraints_loop_invariant orm (get_preview_info orm depth) fk_previews
           path existing _
           (fun s => forall d, In d (snd s) -> In d existing \/ made_below path d)).
  - intros fk a b _ _ Ha Hs d Hin.
    apply constraint_step_inv in Hs
      as (cc & rc & pdc & rinfo & rcols & _ & _ & _ & Hrec & ->).
    unfold step_result in Hin. cbn [snd] in Hin.
    apply in_app_or in Hin as [Hin|Hin]; [now apply Ha|].
    apply in_app_or in Hin as [Hin|Hin].
    + destruct (IH _ _ _ _ _ _ _ Hrec d Hin) as [He|Hb]; [now left|].
      right. eapply made_below_step; eauto.
    + right. apply in_map_iff in Hin as (i & <- & _).
      split; [|reflexivity].
      exists (id cc, id rc), []. reflexivity.
  - intros d Hin. now left.
Qed.

Lemma added_descriptors_made_below_witness :
  exists info cols,
    get_preview_info preview_examples.store 4 "all" 1 None [] [] = Ok (info, cols)
    /\ List.length cols = 3
    /\ forall d, In d cols -> In d [] \/ made_below [] d.
Proof.
  eexists _, _. split; [vm_compute; reflexivity|]. split; [reflexivity|].
  eapply (added_descriptors_made_below preview_examples.store 4 "all" 1 None [] []).
  vm_compute. reflexivity.
Defined.

(** ** Cycles *)

(** X13.  A foreign key from a table to itself whose constrained column is let
    through by the restriction that the table's own template induces is
    followed again at every level: when it is the first foreign key of the
    table, the resolver raises [RecursionError] whatever depth it is
    allowed. *)
Theorem self_reference_exhausts_depth orm fk_previews pk fk others c r pdc :
  foreign_keys orm pk = fk :: others ->
  first (columns fk) = Ok c ->
  first (referent_columns fk) = Ok r ->
  table_id (table r) = pk ->
  Column_objects_filter orm (PyStr.findall_braces (template (table r))) = Ok pdc ->
  lets_through (Some pdc) c = true ->
  (String.eqb fk_previews "auto" = true -> shows_preview c) ->
  forall depth restrict path existing,
    lets_through restrict c = true ->
    get_preview_info orm depth fk_previews pk restrict path existing
    = Raise RecursionError.
Proof.
  intros Hfks Hc Hr Hself Hpdc Hthrough Hflag.
  assert (Hpass : forall restrict,
             lets_through restrict c = true ->
             passes (filters orm fk_previews pk restrict) fk = Ok true).
  { intros restrict Hl. rewrite filters_eq.
    assert (Hres : passes match restrict with
                          | Some (x :: xs) =>
                              [_get_filter_restricted_columns_fn (x :: xs)]
                          | _ => []
                          end fk = Ok true).
    { destruct restrict as [[|x xs]|]; try reflexivity.
      cbn [passes]. unfold _get_filter_restricted_columns_fn. rewrite Hc.
      cbn [rbind]. unfold lets_through in Hl. now rewrite Hl. }
    destruct (String.eqb fk_previews "auto") eqn:Hauto; [|exact Hres].
    cbn [app passes]. unfold _filter_preview_enabled_columns. rewrite Hc.
    cbn [rbind]. unfold shows_preview in Hflag. rewrite (Hflag eq_refl).
    cbn [rbind]. exact Hres. }
  induction depth as [|depth IH]; intros restrict path existing Hl; [reflexivity|].
  cbn [get_preview_info].
  unfold get_preview_info_body, get_constrained_columns_by_referent_table.
  rewrite select_fk_constraints_source, Hfks. cbn [constraints_loop].
  fold (filters orm fk_previews pk restrict). rewrite (Hpass restrict Hl).
  cbn [rbind]. unfold constraint_step. rewrite Hc. cbn [rbind]. rewrite Hr.
  cbn [rbind]. rewrite Hpdc. cbn [rbind]. rewrite Hself.
  rewrite (IH (Some pdc) _ existing Hthrough). reflexivity.
Qed.

Lemma self_reference_exhausts_depth_witness :
  get_preview_info cyclic_store 1000 "auto" 7 None [] [] = Raise RecursionError.
Proof.
  apply (self_reference_exhausts_depth cyclic_store "auto" 7 fk_manager []
           employees_manager employees_id [employees_manager]);
    try reflexivity.
Defined.

(** ** Repeated columns *)

Section Measure.

(** A size of column lists that adds up over concatenation. *)
Variable size : list InitialColumnDict -> nat.
Hypothesis size_app : forall a b, size (a ++ b) = size a + size b.

Lemma constraints_loop_grows orm rec fk_previews preds path existing :
  (forall m pk restrict p info cols,
      rec m pk restrict p existing = Ok (info, cols) -> extends existing cols) ->
  forall cs st st',
    constraints_loop orm rec fk_previews preds path existing cs st = Ok st' ->
    size (snd st) + survivors preds cs * size existing <= size (snd st').
Proof.
  intros Hrec. induction cs as [|fk cs IH]; intros st st' H; simpl in H.
  - injection H as <-. unfold survivors; simpl. lia.
  - unfold survivors in *. cbn [List.filter]. unfold survives at 1.
    destruct (passes preds fk) as [[|]|e]; simpl in H; try discriminate.
    + destruct (constraint_step orm rec fk_previews path existing st fk)
        as [st1|e] eqn:Hs; simpl in H; try discriminate.
      apply IH in H.
      apply constraint_step_inv in Hs
        as (cc & rc & pdc & rinfo & rcols & _ & _ & _ & Hcall & ->).
      apply Hrec in Hcall as [ext ->].
      unfold step_result in H. cbn [snd] in H.
      rewrite !size_app in H. cbn [List.length]. lia.
    + now apply IH.
Qed.

End Measure.

(** X14.  The columns passed in come back once at the head of the returned list
    and once more for every foreign key that survives the filters, since
    each turn of the loop appends the whole list returned by its recursive
    call, which begins with them: both the length of the list and the
    number of descriptors for any one column grow accordingly. *)
Theorem existing_repeated_per_survivor orm depth fk_previews pk restrict path
    existing info cols :
  get_preview_info orm depth fk_previews pk restrict path existing
  = Ok (info, cols) ->
  let turns := survivors (filters orm fk_previews pk restrict) (foreign_keys orm pk) in
  (1 + turns) * List.length existing <= List.length cols
  /\ forall d, (1 + turns) * occurrences d existing <= occurrences d cols.
Proof.
  intros H turns. apply get_preview_info_unfold in H as (depth' & _ & H).
  assert (Hrec : forall m pk' restrict' p info' cols',
             get_preview_info orm depth' m pk' restrict' p existing
             = Ok (info', cols') -> extends existing cols').
  { intros m pk' restrict' p info' cols' Hcall.
    apply get_preview_info_unfold in Hcall as (d & _ & Hcall).
    exact (constraints_loop_extends _ _ _ _ _ _ _ _ _ Hcall). }
  split.
  - pose proof (constraints_loop_grows (@List.length _) (@length_app _) orm _ _ _ _ _
                  Hrec _ _ _ H) as Hlen.
    cbn [snd] in Hlen. fold (filters orm fk_previews pk restrict) in Hlen.
    fold turns in Hlen. lia.
  - intros d.
    pose proof (constraints_loop_grows (occurrences d) (occurrences_app d) orm _ _ _
                  _ _ Hrec _ _ _ H) as Hocc.
    cbn [snd] in Hocc. fold (filters orm fk_previews pk restrict) in Hocc.
    fold turns in Hocc. lia.
Qed.

Lemma existing_repeated_per_survivor_witness :
  exists info cols,
    get_preview_info preview_examples.store 4 "all" 1 None []
      [preview_examples.city_name_of_customer] = Ok (info, cols)
    /\ 3 * 1 <= List.length cols
    /\ forall d,
        3 * occurrences d [preview_examples.city_name_of_customer]
        <= occurrences d cols.
Proof.
  eexists _, _. split; [vm_compute; reflexivity|].
  eapply (existing_repeated_per_survivor preview_examples.store 4 "all" 1 None []
            [preview_examples.city_name_of_customer]).
  vm_compute. reflexivity.
Defined.

(** ** Foreign keys over several columns *)

Lemma passes_same_first orm orm' fk_previews pk restrict a b :
  same_first_pair a b ->
  passes (filters orm fk_previews pk restrict) a
  = passes (filters orm' fk_previews pk restrict) b.
Proof.
  intros [Hc _]. rewrite !filters_eq.
  destruct (String.eqb fk_previews "auto"); destruct restrict as [[|x xs]|];
    cbn [app passes];
    unfold _filter_preview_enabled_columns, _get_filter_restricted_columns_fn;
    rewrite ?Hc; reflexivity.
Qed.

Lemma constraint_step_same_first orm orm' rec rec' fk_previews path existing st a b :
  same_first_pair a b ->
  (forall ids, Column_objects_filter orm ids = Column_objects_filter orm' ids) ->
  (forall m pk restrict p cols,
      rec m pk restrict p cols = rec' m pk restrict p cols) ->
  constraint_step orm rec fk_previews path existing st a
  = constraint_step orm' rec' fk_previews path existing st b.
Proof.
  intros [Hc Hr] Hcof Hrec. destruct st as [info cols].
  unfold constraint_step. rewrite Hc, Hr.
  destruct (first (columns b)) as [cc|e]; [|reflexivity]. cbn [rbind].
  destruct (first (referent_columns b)) as [rc|e]; [|reflexivity]. cbn [rbind].
  rewrite Hcof.
  destruct (Column_objects_filter orm' _) as [pdc|e]; [|reflexivity]. cbn [rbind].
  now rewrite Hrec.
Qed.

Lemma constraints_loop_same_first orm orm' rec rec' fk_previews preds preds' path
    existing cs cs' :
  Forall2 same_first_pair cs cs' ->
  (forall a b, same_first_pair a b -> passes preds a = passes preds' b) ->
  (forall ids, Column_objects_filter orm ids = Column_objects_filter orm' ids) ->
  (forall m pk restrict p cols,
      rec m pk restrict p cols = rec' m pk restrict p cols) ->
  forall st,
    constraints_loop orm rec fk_previews preds path existing cs st
    = constraints_loop orm' rec' fk_previews preds' path existing cs' st.
Proof.
  intros Hcs Hpreds Hcof Hrec.
  induction Hcs as [|a b cs cs' Hab _ IH]; intros st; simpl; [reflexivity|].
  rewrite (Hpreds a b Hab).
  destruct (passes preds' b) as [[|]|e]; simpl; auto.
  rewrite (constraint_step_same_first orm orm' rec rec' _ _ _ st a b Hab Hcof Hrec).
  destruct (constraint_step orm' rec' fk_previews path existing st b); simpl; auto.
Qed.

(** X15.  Of a foreign key the resolver reads the first constrained column and
    the first referent column only, and of a table its foreign-key
    constraints only: two stores whose foreign keys agree on those first
    pairs give the same result, whatever further columns the foreign keys
    span and whatever other constraints the tables have. *)
Theorem only_first_pair_is_read orm orm' :
  same_first_pairs orm orm' ->
  forall depth fk_previews pk restrict path existing,
    get_preview_info orm depth fk_previews pk restrict path existing
    = get_preview_info orm' depth fk_previews pk restrict path existing.
Proof.
  intros [Hcof Hfks].
  induction depth as [|depth IH]; intros fk_previews pk restrict path existing;
    [reflexivity|].
  cbn [get_preview_info].
  unfold get_preview_info_body, get_constrained_columns_by_referent_table.
  rewrite !select_fk_constraints_source.
  apply constraints_loop_same_first; auto.
  intros a b Hab.
  exact (passes_same_first orm orm' fk_previews pk restrict a b Hab).
Qed.

Lemma only_first_pair_is_read_witness :
  get_preview_info two_column_store 3 "auto" 2 None [] []
  = get_preview_info single_column_store 3 "auto" 2 None [] []
  /\ get_preview_info two_column_store 3 "auto" 2 None [] []
     = Ok ([(KInt 20, mkPreviewEntry "{20__31__col__30}" [(20, 31)%Z])],
           [preview_examples.city_name_of_customer]).
Proof.
  split; [|reflexivity].
  apply (only_first_pair_is_read two_column_store single_column_store).
  split; [reflexivity|].
  intros pk. unfold foreign_keys, two_column_store, single_column_store; simpl.
  destruct (Z.eqb pk 2); simpl; repeat constructor.
Defined.

(** ** Metadata the resolver cannot use *)

Lemma constraints_loop_raises orm rec fk_previews preds path existing cs fk :
  In fk cs ->
  (passes preds fk = Ok false -> False) ->
  (passes preds fk = Ok true ->
   forall st,
     is_ok (constraint_step orm rec fk_previews path existing st fk) = false) ->
  forall st,
    is_ok (constraints_loop orm rec fk_previews preds path existing cs st) = false.
Proof.
  intros Hin Hskip Hturn.
  induction cs as [|c cs IH]; intros st; [destruct Hin|]. simpl.
  destruct (passes preds c) as [[|]|e] eqn:Hp; simpl; [| |reflexivity].
  - destruct (constraint_step orm rec fk_previews path existing st c)
      as [st1|e] eqn:Hs; simpl; [|reflexivity].
    destruct Hin as [->|Hin]; [|now apply IH].
    specialize (Hturn Hp st). rewrite Hs in Hturn. discriminate.
  - destruct Hin as [->|Hin]; [now destruct (Hskip Hp)|now apply IH].
Qed.

(** X16.  The resolver returns nothing for a table one of whose foreign keys it
    cannot read: a foreign key without constrained column, in every mode
    and under every restriction; a foreign key that survives the filters
    but has no referent column; and, in ['auto'] mode, a foreign key whose
    constrained column has no [show_fk_preview] entry among its display
    options.  The exception is raised when the loop reaches that foreign
    key, unless an earlier one raised. *)
Theorem unreadable_foreign_key_raises orm depth fk_previews pk restrict path
    existing fk :
  In fk (foreign_keys orm pk) ->
  (columns fk = [] ->
   is_ok (get_preview_info orm depth fk_previews pk restrict path existing) = false)
  /\ (referent_columns fk = [] ->
      passes (filters orm fk_previews pk restrict) fk = Ok true ->
      is_ok (get_preview_info orm depth fk_previews pk restrict path existing)
      = false)
  /\ (forall cc,
        first (columns fk) = Ok cc ->
        getitem (display_options cc) "show_fk_preview" = Raise KeyError ->
        is_ok (get_preview_info orm depth "auto" pk restrict path existing) = false).
Proof.
  intros Hin.
  assert (Hstart : forall m,
             get_preview_info orm depth m pk restrict path existing
             = match depth with
               | O => Raise RecursionError
               | S d =>
                   constraints_loop orm (get_preview_info orm d) m
                     (filters orm m pk restrict) path existing
                     (foreign_keys orm pk) ([], existing)
               end).
  { intros m. destruct depth as [|d]; [reflexivity|]. cbn [get_preview_info].
    unfold get_preview_info_body, get_constrained_columns_by_referent_table.
    now rewrite select_fk_constraints_source. }
  split; [|split].
  - intros Hnone. rewrite Hstart. destruct depth as [|d]; [reflexivity|].
    apply (constraints_loop_raises _ _ _ _ _ _ _ fk Hin).
    + rewrite filters_eq.
      destruct (String.eqb fk_previews "auto"); destruct restrict as [[|x xs]|];
        cbn [app passes];
        unfold _filter_preview_enabled_columns, _get_filter_restricted_columns_fn;
        rewrite ?Hnone; simpl; discriminate.
    + intros _ [info cols]. unfold constraint_step. now rewrite Hnone.
  - intros Hnone Hp. rewrite Hstart. destruct depth as [|d]; [reflexivity|].
    apply (constraints_loop_raises _ _ _ _ _ _ _ fk Hin).
    + rewrite Hp. discriminate.
    + intros _ [info cols]. unfold constraint_step.
      destruct (first (columns fk)); [|reflexivity]. cbn [rbind].
      now rewrite Hnone.
  - intros cc Hcc Hflag. rewrite Hstart. destruct depth as [|d]; [reflexivity|].
    assert (Hp : exists e, passes (filters orm "auto" pk restrict) fk = Raise e).
    { rewrite filters_eq. change (String.eqb "auto" "auto") with true.
      cbn [app passes]. unfold _filter_preview_enabled_columns.
      rewrite Hcc. cbn [rbind]. rewrite Hflag. now exists KeyError. }
    destruct Hp as [e Hp].
    apply (constraints_loop_raises _ _ _ _ _ _ _ fk Hin);
      rewrite Hp; discriminate.
Qed.

Lemma unreadable_foreign_key_raises_witness :
  get_preview_info broken_store 5 "all" 2 None [] [] = Raise IndexError.
Proof.
  destruct (get_preview_info broken_store 5 "all" 2 None [] []) as [r|e] eqn:H.
  - pose proof (proj1 (unreadable_foreign_key_raises broken_store 5 "all" 2 None
                         [] [] fk_no_columns (or_intror (or_introl eq_refl)))
                  eq_refl) as Hraise.
    rewrite H in Hraise. discriminate Hraise.
  - vm_compute in H. exact (eq_sym H).
Defined.

(** ** Termination *)

(** X17.  On metadata where every foreign key can be read, every column lookup
    answers and every foreign key leads to a table of lower rank, so that
    no chain of foreign keys comes back to a table, the resolver returns
    for every table as soon as the depth it is allowed exceeds the rank
    of the table, in every mode, under every restriction, path and list of
    existing columns; a larger depth gives the same result. *)
Theorem returns_on_well_founded_store orm rank :
  well_founded_store orm rank ->
  forall depth pk fk_previews restrict path existing,
    rank pk < depth ->
    exists info cols,
      get_preview_info orm depth fk_previews pk restrict path existing
      = Ok (info, cols)
      /\ get_preview_info orm (S depth) fk_previews pk restrict path existing
         = Ok (info, cols).
Proof.
  intros [Hcof Hfks].
  assert (Hret : forall depth pk fk_previews restrict path existing,
             rank pk < depth ->
             exists r,
               get_preview_info orm depth fk_previews pk restrict path existing
               = Ok r).
  { induction depth as [|depth IH];
      intros pk fk_previews restrict path existing Hrank; [lia|].
    cbn [get_preview_info].
    unfold get_preview_info_body, get_constrained_columns_by_referent_table.
    rewrite select_fk_constraints_source.
    apply constraints_loop_returns.
    - intros fk Hin.
      destruct (Hfks pk fk Hin) as (cc & rc & flag & Hcc & _ & Hflag & _).
      fold (filters orm fk_previews pk restrict). rewrite filters_eq.
      destruct (String.eqb fk_previews "auto"); destruct restrict as [[|x xs]|];
        cbn [app passes];
        unfold _filter_preview_enabled_columns, _get_filter_restricted_columns_fn;
        rewrite ?Hcc; cbn [rbind]; rewrite ?Hflag; cbn [rbind];
        try destruct flag; cbn [rbind];
        try match goal with
            | |- context [existsb ?f ?l] => destruct (existsb f l)
            end;
        eauto.
    - intros fk [info cols] Hin.
      destruct (Hfks pk fk Hin) as (cc & rc & flag & Hcc & Hrc & _ & Hlt).
      destruct (Hcof (PyStr.findall_braces (template (table rc)))) as [pdc Hpdc].
      destruct (IH (table_id (table rc)) fk_previews (Some pdc)
                  (path ++ [(id cc, id rc)]) existing ltac:(lia))
        as [[rinfo rcols] Hrec].
      eexists.
      exact (constraint_step_ok orm _ _ _ _ _ fk cc rc pdc rinfo rcols
               Hcc Hrc Hpdc Hrec). }
  intros depth pk fk_previews restrict path existing Hrank.
  destruct (Hret depth pk fk_previews restrict path existing Hrank)
    as [[info cols] H].
  exists info, cols. split; [exact H|].
  now apply get_preview_info_depth_mono.
Qed.

Lemma returns_on_well_founded_store_witness :
  exists info cols,
    get_preview_info preview_examples.store 3 "auto" 1 None [] [] = Ok (info, cols)
    /\ get_preview_info preview_examples.store 4 "auto" 1 None [] []
       = Ok (info, cols).
Proof.
  apply (returns_on_well_founded_store preview_examples.store sample_rank).
  - split.
    + intros ids. eexists. reflexivity.
    + intros pk fk Hin. unfold foreign_keys in Hin. simpl in Hin.
      unfold preview_examples.constraints_of in Hin.
      destruct (Z.eqb_spec pk 1) as [->|H1].
      * simpl in Hin. destruct Hin as [<-|[<-|[]]].
        -- exists preview_examples.orders_customer, preview_examples.customers_id,
             true. repeat split. vm_compute. lia.
        -- exists preview_examples.orders_note, preview_examples.cities_id,
             false. repeat split. vm_compute. lia.
      * destruct (Z.eqb_spec pk 2) as [->|H2]; [|destruct Hin].
        simpl in Hin. destruct Hin as [<-|[]].
        exists preview_examples.customers_city, preview_examples.cities_id, true.
        repeat split. vm_compute. lia.
  - vm_compute. lia.
Defined.

(** ** Templates without placeholder *)

Lemma findall_scan_no_open (s : string) :
  all_chars (fun c => negb (Ascii.eqb c "{")) s = true ->
  PyStr.findall_scan None s = [].
Proof.
  induction s as [|c s IH]; cbn [PyStr.findall_scan all_chars]; [reflexivity|].
  intros H. apply andb_prop in H as [Hc Hs].
  apply negb_true_iff in Hc. rewrite Hc. now apply IH.
Qed.

Lemma replace_braces_no_open (t x new : string) :
  all_chars (fun c => negb (Ascii.eqb c "{")) t = true ->
  PyStr.replace t (braces x) new = t.
Proof. intros Ht. exact (replace_scan_no_open (x ++ "}") new t Ht). Qed.

Lemma substitute_nested_no_open rinfo (t : string) :
  all_chars (fun c => negb (Ascii.eqb c "{")) t = true ->
  substitute_nested rinfo t = t.
Proof.
  intros Ht. unfold substitute_nested.
  induction rinfo as [|[k v] rinfo IH]; cbn [fold_left]; [reflexivity|].
  rewrite (replace_braces_no_open t _ _ Ht). exact IH.
Qed.

(** X18.  A referent table whose template has no opening brace has no
    placeholder: the turn of a foreign key into it records the template
    as it is, adds no descriptor of its own, and asks for the columns of
    an empty list of ids; it still recurses into the referent table and
    appends the columns that call returns. *)
Theorem template_without_placeholder_kept orm rec fk_previews previous_path
    existing info cols fk cc rc st' :
  first (columns fk) = Ok cc ->
  first (referent_columns fk) = Ok rc ->
  all_chars (fun c => negb (Ascii.eqb c "{")) (template (table rc)) = true ->
  constraint_step orm rec fk_previews previous_path existing (info, cols) fk
  = Ok st' ->
  exists pdc rinfo rcols,
    Column_objects_filter orm [] = Ok pdc
    /\ rec fk_previews (table_id (table rc)) (Some pdc)
         (previous_path ++ [(id cc, id rc)]) existing = Ok (rinfo, rcols)
    /\ dict_get (fst st') (KInt (id cc))
       = Some (mkPreviewEntry (template (table rc))
                 (previous_path ++ [(id cc, id rc)]))
    /\ snd st' = cols ++ rcols.
Proof.
  intros Hcc Hrc Hplain Hstep.
  apply constraint_step_inv in Hstep
    as (cc' & rc' & pdc & rinfo & rcols & Hcc' & Hrc' & Hpdc & Hrec & ->).
  rewrite Hcc in Hcc'. injection Hcc' as <-.
  rewrite Hrc in Hrc'. injection Hrc' as <-.
  assert (Hids : PyStr.findall_braces (template (table rc)) = [])
    by (apply findall_scan_no_open; exact Hplain).
  rewrite Hids in Hpdc.
  exists pdc, rinfo, rcols. split; [exact Hpdc|]. split; [exact Hrec|].
  unfold step_result. cbn [fst snd]. rewrite Hids.
  cbn [leaf_ids List.filter fold_left List.map].
  rewrite (substitute_nested_no_open rinfo _ Hplain), app_nil_r.
  split; [apply dict_get_set|reflexivity].
Qed.

Lemma template_without_placeholder_kept_witness :
  exists pdc rinfo rcols,
    Column_objects_filter preview_examples.store [] = Ok pdc
    /\ get_preview_info preview_examples.store 1 "all" 8 (Some pdc) [(10, 80)%Z] []
       = Ok (rinfo, rcols)
    /\ dict_get [(KInt 10, mkPreviewEntry "no placeholder" [(10, 80)%Z])] (KInt 10)
       = Some (mkPreviewEntry "no placeholder" [(10, 80)%Z])
    /\ @nil InitialColumnDict = [] ++ rcols.
Proof.
  apply (template_without_placeholder_kept preview_examples.store
           (get_preview_info preview_examples.store 1) "all" [] [] [] []
           (mkConstraint "f" [preview_examples.orders_customer]
              [mkColumn 80 (mkTable 8 "no placeholder") []])
           preview_examples.orders_customer
           (mkColumn 80 (mkTable 8 "no placeholder") [])
           ([(KInt 10, mkPreviewEntry "no placeholder" [(10, 80)%Z])], []));
    reflexivity.
Defined.

End preview_extra.

(** * Properties of [add_preview_columns] *)

Module preview_columns_facts.

Import preview preview_columns preview_columns_spec.

(** ** Inner dictionaries *)

Lemma entry_get_set_same e key v : entry_get (entry_set e key v) key = Some v.
Proof.
  induction e as [|[k v'] e IH]; simpl.
  - now rewrite String.eqb_refl.
  - destruct (String.eqb k key) eqn:E; simpl; now rewrite E.
Qed.

Lemma entry_get_set_other e key v key' :
  key' <> key -> entry_get (entry_set e key v) key' = entry_get e key'.
Proof.
  intros Hne. induction e as [|[k v'] e IH]; simpl.
  - destruct (String.eqb_spec key key'); [congruence|reflexivity].
  - destruct (String.eqb_spec k key) as [->|Hk]; simpl.
    + destruct (String.eqb_spec key key'); [congruence|reflexivity].
    + now rewrite IH.
Qed.

(** ** The outer dictionary *)

Lemma info_get_has_table info t :
  is_ok (info_get info t) = has_table info t.
Proof.
  unfold has_table, tables_of.
  induction info as [|[k e] info IH]; simpl; [reflexivity|].
  destruct (Z.eqb k t); simpl; [reflexivity|exact IH].
Qed.

Lemma info_get_raise info t err : info_get info t = Raise err -> err = KeyError.
Proof.
  induction info as [|[k e] info IH]; simpl.
  - now intros [= <-].
  - destruct (Z.eqb k t); [discriminate|exact IH].
Qed.

Lemma info_set_item_ok info t key v e :
  info_get info t = Ok e ->
  exists info',
    info_set_item info t key v = Ok info'
    /\ tables_of info' = tables_of info
    /\ info_get info' t = Ok (entry_set e key v)
    /\ forall t', t' <> t -> info_get info' t' = info_get info t'.
Proof.
  unfold tables_of.
  induction info as [|[k e0] info IH]; simpl; [discriminate|].
  destruct (Z.eqb_spec k t) as [->|Hk].
  - intros [= ->]. eexists. split; [reflexivity|]. simpl.
    rewrite Z.eqb_refl. repeat split.
    intros t' Hne. destruct (Z.eqb_spec t t'); [congruence|reflexivity].
  - intros H. destruct (IH H) as (info' & -> & Hkeys & Hget & Hother).
    simpl. eexists. split; [reflexivity|]. simpl.
    destruct (Z.eqb_spec k t); [congruence|].
    rewrite Hkeys. repeat split; [exact Hget|].
    intros t' Hne. destruct (Z.eqb k t'); [reflexivity|now apply Hother].
Qed.

Lemma info_set_item_raise info t key v err :
  info_get info t = Raise err -> info_set_item info t key v = Raise KeyError.
Proof.
  induction info as [|[k e0] info IH]; simpl; [reflexivity|].
  destruct (Z.eqb k t); [discriminate|].
  intros H. now rewrite (IH H).
Qed.

(** ** One setting *)

Lemma add_step_ok orm info s cols e :
  Column_objects_filter orm (PyStr.findall_braces (settings_template s)) = Ok cols ->
  info_get info (settings_table_id s) = Ok e ->
  exists info',
    add_step orm info s = (info', Ok tt)
    /\ tables_of info' = tables_of info
    /\ info_get info' (settings_table_id s)
       = Ok (entry_set (entry_set e "preview_columns" (VColumns cols))
               "table" (VTable (settings_table s)))
    /\ forall t', t' <> settings_table_id s -> info_get info' t' = info_get info t'.
Proof.
  intros Hcols Hget. unfold add_step. rewrite Hcols.
  destruct (info_set_item_ok info _ "preview_columns" (VColumns cols) e Hget)
    as (info1 & -> & Hk1 & Hg1 & Ho1).
  destruct (info_set_item_ok info1 _ "table" (VTable (settings_table s)) _ Hg1)
    as (info2 & -> & Hk2 & Hg2 & Ho2).
  exists info2. split; [reflexivity|]. split; [congruence|]. split; [exact Hg2|].
  intros t' Hne. rewrite (Ho2 t' Hne). now apply Ho1.
Qed.

Lemma add_step_missing orm info s cols err :
  Column_objects_filter orm (PyStr.findall_braces (settings_template s)) = Ok cols ->
  info_get info (settings_table_id s) = Raise err ->
  add_step orm info s = (info, Raise KeyError).
Proof.
  intros Hcols Hget. unfold add_step. rewrite Hcols.
  now rewrite (info_set_item_raise info _ _ _ err Hget).
Qed.

(** The outcome of one turn: the tables stay, the entries of the other
    tables stay, and so do the keys of the entry that are not written. *)
Lemma add_step_frame orm info s :
  tables_of (fst (add_step orm info s)) = tables_of info
  /\ (forall t,
        t <> settings_table_id s ->
        info_get (fst (add_step orm info s)) t = info_get info t)
  /\ (forall t key,
        written_key key = false ->
        lookup (fst (add_step orm info s)) t key = lookup info t key).
Proof.
  destruct (Column_objects_filter orm (PyStr.findall_braces (settings_template s)))
    as [cols|e] eqn:Hcols;
    [|unfold add_step; rewrite Hcols; repeat split].
  destruct (info_get info (settings_table_id s)) as [e|err] eqn:Hget;
    [|rewrite (add_step_missing orm info s cols err Hcols Hget); repeat split].
  destruct (add_step_ok orm info s cols e Hcols Hget)
    as (info' & -> & Hkeys & Hentry & Hother).
  cbn [fst]. split; [exact Hkeys|]. split; [exact Hother|].
  intros t key Hkey. unfold lookup.
  destruct (Z.eq_dec t (settings_table_id s)) as [->|Hne].
  - rewrite Hentry, Hget. unfold written_key in Hkey.
    apply orb_false_elim in Hkey as [H1 H2].
    apply String.eqb_neq in H1, H2.
    now rewrite !entry_get_set_other.
  - now rewrite (Hother t Hne).
Qed.

Lemma add_preview_columns_app orm pre :
  forall info post,
    add_preview_columns orm info (pre ++ post)
    = match add_preview_columns orm info pre with
      | (info', Ok _) => add_preview_columns orm info' post
      | (info', Raise e) => (info', Raise e)
      end.
Proof.
  induction pre as [|s pre IH]; intros info post; simpl; [reflexivity|].
  destruct (add_step orm info s) as [info1 [[]|e]]; [apply IH|reflexivity].
Qed.

(** ** The whole function *)

(** X19.  [add_preview_columns] never adds or removes a table of the dictionary
    it is given, never touches the entry of a table that no setting names,
    and within an entry touches no key other than ['preview_columns'] and
    ['table'], whether it returns or raises.  When it returns, it returns
    the dictionary it has been writing to. *)
Theorem add_preview_columns_frame orm :
  forall settings info,
    tables_of (fst (add_preview_columns orm info settings)) = tables_of info
    /\ (forall t,
          (forall s, In s settings -> settings_table_id s <> t) ->
          info_get (fst (add_preview_columns orm info settings)) t = info_get info t)
    /\ (forall t key,
          written_key key = false ->
          lookup (fst (add_preview_columns orm info settings)) t key
          = lookup info t key)
    /\ (forall returned,
          snd (add_preview_columns orm info settings) = Ok returned ->
          returned = fst (add_preview_columns orm info settings)).
Proof.
  induction settings as [|s settings IH]; intros info.
  - simpl. repeat split. now intros returned [= <-].
  - destruct (add_step_frame orm info s) as (Hk & Ho & Hl).
    cbn [add_preview_columns].
    destruct (add_step orm info s) as [info1 [[]|e]] eqn:Hstep; cbn [fst snd] in *.
    + destruct (IH info1) as (Hk' & Ho' & Hl' & Hr').
      split; [congruence|]. split; [|split; [|exact Hr']].
      * intros t Ht. rewrite Ho'.
        -- apply Ho. intros Heq. apply (Ht s (or_introl eq_refl)). now symmetry.
        -- intros s' Hin. apply Ht. now right.
      * intros t key Hkey. now rewrite Hl', Hl.
    + split; [exact Hk|]. split; [|split; [exact Hl|discriminate]].
      intros t Ht. apply Ho. intros Heq.
      apply (Ht s (or_introl eq_refl)). now symmetry.
Qed.

Lemma add_preview_columns_frame_witness :
  tables_of (fst (add_preview_columns preview_examples.store sample_info
                    [customers_settings; unknown_settings])) = [2%Z; 3%Z]
  /\ info_get (fst (add_preview_columns preview_examples.store sample_info
                      [customers_settings; unknown_settings])) 3 = Ok []
  /\ lookup (fst (add_preview_columns preview_examples.store sample_info
                    [customers_settings; unknown_settings])) 2 "template"
     = Some (VString "{20}").
Proof.
  destruct (add_preview_columns_frame preview_examples.store
              [customers_settings; unknown_settings] sample_info)
    as (Hk & Ho & Hl & _).
  split; [exact Hk|]. split; [|exact (Hl 2%Z "template"%string eq_refl)].
  apply (Ho 3%Z). intros s [<-|[<-|[]]]; discriminate.
Defined.

(** X20.  When the column lookups answer, [add_preview_columns] returns exactly
    when the dictionary has an entry for the table of every setting;
    otherwise it raises [KeyError]. *)
Theorem add_preview_columns_outcome orm :
  forall settings info,
    (forall s,
        In s settings ->
        is_ok (Column_objects_filter orm
                 (PyStr.findall_braces (settings_template s))) = true) ->
    is_ok (snd (add_preview_columns orm info settings))
    = forallb (fun s => has_table info (settings_table_id s)) settings
    /\ forall e,
        snd (add_preview_columns orm info settings) = Raise e -> e = KeyError.
Proof.
  induction settings as [|s settings IH]; intros info Hcof.
  - simpl. split; [reflexivity|discriminate].
  - pose proof (Hcof s (or_introl eq_refl)) as Hs.
    destruct (Column_objects_filter orm (PyStr.findall_braces (settings_template s)))
      as [cols|e0] eqn:Hcols; [|discriminate].
    cbn [add_preview_columns forallb].
    rewrite <- (info_get_has_table info (settings_table_id s)).
    destruct (info_get info (settings_table_id s)) as [e|err] eqn:Hget.
    + destruct (add_step_ok orm info s cols e Hcols Hget)
        as (info' & -> & Hkeys & _ & _).
      destruct (IH info' (fun s' Hin => Hcof s' (or_intror Hin))) as [Hok Herr].
      split; [|exact Herr].
      rewrite Hok. cbn [is_ok andb]. unfold has_table. now rewrite Hkeys.
    + rewrite (add_step_missing orm info s cols err Hcols Hget). cbn [snd is_ok andb].
      split; [reflexivity|]. now intros e [= <-].
Qed.

Lemma add_preview_columns_outcome_witness :
  is_ok (snd (add_preview_columns preview_examples.store sample_info
                [customers_settings; cities_settings])) = true
  /\ snd (add_preview_columns preview_examples.store sample_info
            [customers_settings; unknown_settings]) = Raise KeyError.
Proof.
  split.
  - rewrite (proj1 (add_preview_columns_outcome preview_examples.store
                      [customers_settings; cities_settings] sample_info
                      (fun s _ => eq_refl))).
    reflexivity.
  - destruct (snd (add_preview_columns preview_examples.store sample_info
                     [customers_settings; unknown_settings])) as [r|e] eqn:H.
    + discriminate H.
    + f_equal.
      exact (proj2 (add_preview_columns_outcome preview_examples.store
                      [customers_settings; unknown_settings] sample_info
                      (fun s _ => eq_refl)) e H).
Defined.

(** X21.  After [add_preview_columns] has returned, the entry of the table of a
    setting that no later setting names holds, under ['preview_columns'],
    the columns looked up from the ids of that setting's template and,
    under ['table'], that setting's table. *)
Theorem add_preview_columns_writes orm info pre s post returned cols :
  snd (add_preview_columns orm info (pre ++ s :: post)) = Ok returned ->
  Column_objects_filter orm (PyStr.findall_braces (settings_template s)) = Ok cols ->
  (forall s', In s' post -> settings_table_id s' <> settings_table_id s) ->
  lookup returned (settings_table_id s) "preview_columns" = Some (VColumns cols)
  /\ lookup returned (settings_table_id s) "table"
     = Some (VTable (settings_table s)).
Proof.
  intros Hret Hcols Hpost.
  rewrite add_preview_columns_app in Hret.
  destruct (add_preview_columns orm info pre) as [info1 [r1|e1]];
    [|discriminate].
  cbn [add_preview_columns] in Hret.
  destruct (info_get info1 (settings_table_id s)) as [e|err] eqn:Hget;
    [|rewrite (add_step_missing orm info1 s cols err Hcols Hget) in Hret;
      discriminate].
  destruct (add_step_ok orm info1 s cols e Hcols Hget)
    as (info2 & Hstep & _ & Hentry & _).
  rewrite Hstep in Hret.
  destruct (add_preview_columns_frame orm post info2) as (_ & Ho & _ & Hr).
  rewrite (Hr returned Hret). unfold lookup.
  rewrite (Ho (settings_table_id s) Hpost), Hentry.
  split.
  - rewrite entry_get_set_other by discriminate. apply entry_get_set_same.
  - apply entry_get_set_same.
Qed.

Lemma add_preview_columns_writes_witness :
  exists returned,
    snd (add_preview_columns preview_examples.store sample_info
           [customers_settings; cities_settings]) = Ok returned
    /\ lookup returned 2 "preview_columns"
       = Some (VColumns [preview_examples.customers_city])
    /\ lookup returned 2 "table" = Some (VTable preview_examples.customers).
Proof.
  eexists. split; [vm_compute; reflexivity|].
  apply (add_preview_columns_writes preview_examples.store sample_info []
           customers_settings [cities_settings] _
           [preview_examples.customers_city]).
  - vm_compute. reflexivity.
  - reflexivity.
  - intros s' [<-|[]]. discriminate.
Defined.

(** X22.  The dictionary is written in place, one setting after the other:
    when a setting names a table the dictionary has no entry for, the
    call raises [KeyError] and the dictionary stays as the settings before
    that one left it. *)
Theorem add_preview_columns_stops orm info pre s post info1 cols :
  add_preview_columns orm info pre = (info1, Ok info1) ->
  Column_objects_filter orm (PyStr.findall_braces (settings_template s)) = Ok cols ->
  has_table info (settings_table_id s) = false ->
  add_preview_columns orm info (pre ++ s :: post) = (info1, Raise KeyError).
Proof.
  intros Hpre Hcols Hmissing.
  pose proof (proj1 (add_preview_columns_frame orm pre info)) as Hkeys.
  rewrite Hpre in Hkeys. cbn [fst] in Hkeys.
  rewrite add_preview_columns_app, Hpre. cbn [add_preview_columns].
  assert (Hget : is_ok (info_get info1 (settings_table_id s)) = false).
  { rewrite info_get_has_table. unfold has_table in *. now rewrite Hkeys. }
  destruct (info_get info1 (settings_table_id s)) as [e|err] eqn:Hg;
    [discriminate|].
  now rewrite (add_step_missing orm info1 s cols err Hcols Hg).
Qed.

Lemma add_preview_columns_stops_witness :
  exists info1,
    add_preview_columns preview_examples.store sample_info
      ([customers_settings] ++ unknown_settings :: [cities_settings])
    = (info1, Raise KeyError)
    /\ lookup info1 2 "table" = Some (VTable preview_examples.customers)
    /\ lookup info1 3 "table" = None.
Proof.
  eexists. split.
  - apply (add_preview_columns_stops preview_examples.store sample_info
             [customers_settings] unknown_settings [cities_settings] _
             [preview_examples.orders_customer]).
    + vm_compute. reflexivity.
    + reflexivity.
    + reflexivity.
  - split; reflexivity.
Defined.

End preview_columns_facts.
